(** * Sandbox2 core: a shallow embedding of the sources and its properties

    The development follows the C++ sources of the sandboxing engine:
    - [RawLogging]: the async-signal-safe logger and the verbosity level,
      util/raw_logging.cc (src/unnamed/part_002);
    - [CommsModel]: move semantics and typed helpers of the comms channel,
      sandbox2/comms.h (src/unnamed/part_000);
    - [NetworkProxy]: the network proxy server loop,
      sandbox2/network_proxy/server.cc (src/unnamed/part_001);
    - [Monitor]: the wall-time limit setters and the request methods of
      both monitor variants
      ([UnotifyMonitor] in src/sandboxed_api/sandbox2/monitor_unotify.h,
      [PtraceMonitor] in the monitor header that follows the tests in
      src/sandboxed_api/sandbox2/policybuilder_test.cc);
    - [Bpf], [Path], [Builder]: the policy builder.  Its implementation is
      not among the sources; it is modelled from the spec and from the tests
      that drive it (src/sandboxed_api/sandbox2/policybuilder_test.cc).

    Definitions come first, grouped in modules named after the component;
    the lemmas and theorems about them follow. *)

From Stdlib Require Import ZArith NArith Lia Bool Ascii String DecimalString.
From stdpp Require Import base tactics option list gmap strings.

Local Open Scope Z_scope.

(* ===================================================================== *)
(** * Part I: definitions                                                 *)
(* ===================================================================== *)

(** ** util/raw_logging.cc (src/unnamed/part_002) *)

Module RawLogging.

(** Characters are [ascii]; a C string is the part of a character array
    before its first NUL. *)
Definition NUL : ascii := Ascii.zero.
Definition LF : ascii := Ascii.ascii_of_nat 10.

Definition chars (s : string) : list ascii := list_ascii_of_string s.

(** [static const char kTruncated[] = " ... (message truncated)\n";] *)
Definition kTruncated : list ascii := chars " ... (message truncated)" ++ [LF].

(** [sizeof(kTruncated)]: the characters and the terminating NUL. *)
Definition sizeof_kTruncated : Z := Z.of_nat (length kTruncated) + 1.

(** The stack buffer is a character array; [buf] is an offset into it
    (the C pointer [buf - buffer]) and [size] is the C [int] of the same
    name. *)
Record cursor := Cursor { buf : Z; size : Z }.

(** A store of [bytes] at offset [off].  A store that leaves the array is
    undefined behaviour in C; the model returns [None] for it. *)
Definition store (mem : list ascii) (off : Z) (bytes : list ascii)
  : option (list ascii) :=
  if (0 <=? off) && (off + Z.of_nat (length bytes) <=? Z.of_nat (length mem))
  then Some (take (Z.to_nat off) mem ++ bytes
               ++ drop (Z.to_nat off + length bytes) mem)
  else None.

(** Conversion of an [int] to [size_t] (64-bit): [static_cast<size_t>]. *)
Definition to_size_t (n : Z) : Z := n mod 2 ^ 64.

(** [vsnprintf(buf, size, format, ap)].  The formatted text is an input of
    the model: [Some s] is the text the format and its arguments expand to.
    With a non-zero size the call stores at most [size - 1] characters of
    the text and a terminating NUL; it returns the length of the whole text.
    [None] stands for a call that fails with an output error: it returns a
    negative value, and what it has stored by then depends on the library
    and on the conversion that failed.  The model does not follow such a
    call: its result is [None]. *)
Definition vsnprintf (mem : list ascii) (c : cursor) (text : option (list ascii))
  : option (list ascii * Z) :=
  match text with
  | None => None
  | Some s =>
      let limit := to_size_t (size c) in
      if limit =? 0 then Some (mem, Z.of_nat (length s))
      else
        match store mem (buf c) (take (Z.to_nat (limit - 1)) s ++ [NUL]) with
        | Some mem' => Some (mem', Z.of_nat (length s))
        | None => None
        end
  end.

(** [DoRawLog(&buf, &size, format, ...)]. *)
Definition DoRawLog (mem : list ascii) (c : cursor) (text : option (list ascii))
  : option (list ascii * cursor * bool) :=
  match vsnprintf mem c text with
  | None => None
  | Some (mem', n) =>
      if (n <? 0) || (size c <? n) then Some (mem', c, false)
      else Some (mem', {| buf := buf c + n; size := size c - n |}, true)
  end.

(** [VADoRawLog(&buf, &size, format, ap)]. *)
Definition VADoRawLog (mem : list ascii) (c : cursor) (text : option (list ascii))
  : option (list ascii * cursor * bool) :=
  match vsnprintf mem c text with
  | None => None
  | Some (mem', n) =>
      let '(n, result) :=
        if (n <? 0) || (size c <? n) then
          (if sizeof_kTruncated <? to_size_t (size c)
           then size c - sizeof_kTruncated   (* room for truncation message *)
           else 0,                            (* no room for truncation message *)
           false)
        else (n, true) in
      Some (mem', {| buf := buf c + n; size := size c - n |}, result)
  end.

(** [strlen(buffer)]: the offset of the first NUL.  Reading past the array
    in search of it is undefined behaviour: [None]. *)
Fixpoint strlen (mem : list ascii) : option nat :=
  match mem with
  | [] => None
  | ch :: rest => if Ascii.eqb ch NUL then Some 0%nat else S <$> strlen rest
  end.

(** [absl::LogSeverity]. *)
Inductive LogSeverity := kInfo | kWarning | kError | kFatal.

(** What [RawLogVA] does to the outside world. *)
Inductive effect :=
| SafeWriteToStderr (s : list ascii)   (* syscall(SYS_write, STDERR_FILENO, s, len) *)
| android_log_print (s : list ascii)   (* __android_log_print(..., "SAPI", "%s", buffer) *)
| abort.

(** ["%d"] for an [int]. *)
Definition fmt_int (n : Z) : list ascii :=
  chars (NilZero.string_of_int (Z.to_int n)).

(** The expansion of ["[%s : %d] RAW: "] with [file] and [line]. *)
Definition prefix_text (file : list ascii) (line : Z) : list ascii :=
  chars "[" ++ file ++ chars " : " ++ fmt_int line ++ chars "] RAW: ".

(** [RawLogVA(severity, file, line, format, ap)].

    - [kLogBufSize] is [sapi::raw_logging_internal::kLogBufSize], declared
      in raw_logging.h; it is a parameter here;
    - [android] says whether the file is compiled with [__ANDROID__];
    - [stack] is the content of the uninitialised array [buffer] on entry
      (any [kLogBufSize] characters);
    - [msg] is what [format] and [ap] expand to ([None] for an output
      error of [vsnprintf]).

    The result is [None] when the run has undefined behaviour (an
    out-of-bounds store or an unterminated [strlen]), and when [vsnprintf]
    fails, which the model does not follow. *)
Definition RawLogVA (kLogBufSize : Z) (android : bool) (stack : list ascii)
    (severity : LogSeverity) (file : list ascii) (line : Z)
    (msg : option (list ascii)) : option (list effect) :=
  let buffer := stack in
  let c := {| buf := 0; size := kLogBufSize |} in
  '(buffer, c, _) ← DoRawLog buffer c (Some (prefix_text file line));
  '(buffer, c, no_chop) ← VADoRawLog buffer c msg;
  '(buffer, c, _) ←
     (if no_chop : bool then DoRawLog buffer c (Some [LF])
      else DoRawLog buffer c (Some kTruncated));
  len ← strlen buffer;
  let line_out := take len buffer in
  Some ((if android then [android_log_print line_out]
         else [SafeWriteToStderr line_out])
        ++ match severity with kFatal => [abort] | _ => [] end).

(** A cursor into an array of [len] characters: the window it describes
    lies inside the array. *)
Definition cursor_ok (len : nat) (c : cursor) : Prop :=
  0 <= buf c ∧ 0 <= size c ∧ buf c + size c <= Z.of_nat len ∧ size c < 2 ^ 64.

(** [std::numeric_limits<int>::min()]. *)
Definition INT_MIN : Z := - 2 ^ 31.

(** The initialiser of the function-local [static int
    external_verbose_level] of [VLogIsOn] (the lambda).

    - [env_var] is what [getenv("SAPI_VLOG_LEVEL")] returns ([None] for a
      null pointer);
    - [SimpleAtoi] is [absl::SimpleAtoi] at type [int]: the number the text
      denotes, or [None] when it returns false.

    The result is [None] when [SAPI_RAW_CHECK] fails, which logs at FATAL
    severity and aborts the process. *)
Definition external_verbose_level_init (SimpleAtoi : string -> option Z)
    (env_var : option string) : option Z :=
  let external_verbose_level := INT_MIN in
  match env_var with
  | None => Some external_verbose_level
  | Some text =>
      match SimpleAtoi text with
      | Some external_verbose_level =>
          if 0 <=? external_verbose_level then Some external_verbose_level
          else None
      | None => None
      end
  end.

(** [bool VLogIsOn(int verbose_level)].  [static_level] is the static
    variable: [None] before the first call has initialised it; the
    initialiser runs in that call only.  [env_var] is the environment at the
    time of the call. *)
Definition VLogIsOn (SimpleAtoi : string -> option Z) (env_var : option string)
    (static_level : option Z) (verbose_level : Z) : option (bool * option Z) :=
  external_verbose_level ←
    match static_level with
    | Some level => Some level
    | None => external_verbose_level_init SimpleAtoi env_var
    end;
  Some (verbose_level <=? external_verbose_level, Some external_verbose_level).

End RawLogging.

(** ** sandbox2/comms.h (src/unnamed/part_000): ownership and move
    semantics of [Comms] *)

Module CommsModel.

(** [enum class State]. *)
Inductive State := kUnconnected | kConnected | kTerminated.

(** [sapi::file_util::fileops::FDCloser]: an owned descriptor, [-1] when it
    holds none. *)
Definition FDCloser := Z.

(** [std::variant<std::unique_ptr<RawComms>, RawCommsFdImpl> raw_comms_]:
    either a pointer to a custom transport ([None] is [nullptr], the
    default-constructed variant) or the descriptor-based one. *)
Inductive RawCommsVariant :=
| RawCommsPtr (impl : option nat)
| RawCommsFdImpl (connection_fd_ : FDCloser).

(** [class ListeningComms]. *)
Record ListeningComms := {
  socket_name_ : string;
  listening_abstract_uds_ : bool;
  bind_fd_ : FDCloser;
}.

(** The data members of [class Comms], in declaration order. *)
Record Comms := {
  name_ : string;
  abstract_uds_ : bool;
  raw_comms_ : RawCommsVariant;
  listening_comms_ : option ListeningComms;   (* std::unique_ptr, None = nullptr *)
  state_ : State;
}.

Definition IsConnected (c : Comms) : bool :=
  match state_ c with kConnected => true | _ => false end.

Definition IsTerminated (c : Comms) : bool :=
  match state_ c with kTerminated => true | _ => false end.

(** Objects live at addresses, so that [this == &other] can be asked; the
    process also has its table of open descriptors. *)
Record world := {
  objs : gmap nat Comms;
  open_fds : gset Z;
}.

(** The descriptors an object owns (the ones its destructor would close). *)
Definition fd_set (fd : FDCloser) : gset Z :=
  if 0 <=? fd then {[ fd ]} else ∅.

Definition raw_fds (r : RawCommsVariant) : gset Z :=
  match r with
  | RawCommsFdImpl fd => fd_set fd
  | RawCommsPtr _ => ∅
  end.

Definition owned_fds (c : Comms) : gset Z :=
  raw_fds (raw_comms_ c)
  ∪ match listening_comms_ c with
    | Some l => fd_set (bind_fd_ l)
    | None => ∅
    end.

(** [std::swap] on one data member of the two objects. *)
Definition swap_name (p : Comms * Comms) : Comms * Comms :=
  let '(x, y) := p in
  ({| name_ := name_ y; abstract_uds_ := abstract_uds_ x;
      raw_comms_ := raw_comms_ x; listening_comms_ := listening_comms_ x;
      state_ := state_ x |},
   {| name_ := name_ x; abstract_uds_ := abstract_uds_ y;
      raw_comms_ := raw_comms_ y; listening_comms_ := listening_comms_ y;
      state_ := state_ y |}).

Definition swap_abstract_uds (p : Comms * Comms) : Comms * Comms :=
  let '(x, y) := p in
  ({| name_ := name_ x; abstract_uds_ := abstract_uds_ y;
      raw_comms_ := raw_comms_ x; listening_comms_ := listening_comms_ x;
      state_ := state_ x |},
   {| name_ := name_ y; abstract_uds_ := abstract_uds_ x;
      raw_comms_ := raw_comms_ y; listening_comms_ := listening_comms_ y;
      state_ := state_ y |}).

Definition swap_raw_comms (p : Comms * Comms) : Comms * Comms :=
  let '(x, y) := p in
  ({| name_ := name_ x; abstract_uds_ := abstract_uds_ x;
      raw_comms_ := raw_comms_ y; listening_comms_ := listening_comms_ x;
      state_ := state_ x |},
   {| name_ := name_ y; abstract_uds_ := abstract_uds_ y;
      raw_comms_ := raw_comms_ x; listening_comms_ := listening_comms_ y;
      state_ := state_ y |}).

Definition swap_state (p : Comms * Comms) : Comms * Comms :=
  let '(x, y) := p in
  ({| name_ := name_ x; abstract_uds_ := abstract_uds_ x;
      raw_comms_ := raw_comms_ x; listening_comms_ := listening_comms_ x;
      state_ := state_ y |},
   {| name_ := name_ y; abstract_uds_ := abstract_uds_ y;
      raw_comms_ := raw_comms_ y; listening_comms_ := listening_comms_ y;
      state_ := state_ x |}).

Definition swap_listening_comms (p : Comms * Comms) : Comms * Comms :=
  let '(x, y) := p in
  ({| name_ := name_ x; abstract_uds_ := abstract_uds_ x;
      raw_comms_ := raw_comms_ x; listening_comms_ := listening_comms_ y;
      state_ := state_ x |},
   {| name_ := name_ y; abstract_uds_ := abstract_uds_ y;
      raw_comms_ := raw_comms_ y; listening_comms_ := listening_comms_ x;
      state_ := state_ y |}).

(** [void Swap(Comms& other)], with [this] and [other] given by address.
    Addresses that hold no object are outside the model (the call leaves
    the world as it is). *)
Definition Swap (this other : nat) (w : world) : world :=
  if decide (this = other) then w
  else
    match objs w !! this, objs w !! other with
    | Some x, Some y =>
        let '(x', y') :=
          swap_listening_comms
            (swap_state (swap_raw_comms (swap_abstract_uds (swap_name (x, y))))) in
        {| objs := <[other := y']> (<[this := x']> (objs w));
           open_fds := open_fds w |}
    | _, _ => w
    end.

(** Modelled from the spec: the body of [Comms::Terminate] (comms.cc) is not
    among the sources.  Its declaration in comms.h documents it:
    "Terminates all underlying file descriptors, and sets the status of the
    Comms object to TERMINATED."  The object gives up its transport and its
    listening socket, whose descriptors are closed. *)
Definition Terminate (this : nat) (w : world) : world :=
  match objs w !! this with
  | Some c =>
      {| objs := <[this := {| name_ := name_ c;
                              abstract_uds_ := abstract_uds_ c;
                              raw_comms_ := RawCommsPtr None;
                              listening_comms_ := None;
                              state_ := kTerminated |}]> (objs w);
         open_fds := open_fds w ∖ owned_fds c |}
  | None => w
  end.

(** [Comms& operator=(Comms&& other)]. *)
Definition move_assign (this other : nat) (w : world) : world :=
  if decide (this ≠ other) then Terminate other (Swap this other w)
  else w.

(** Modelled from the spec: the transfer operations ([SendTLV], [RecvTLV],
    [SendFD], [RecvFD], [RecvCreds] and the typed helpers built on them)
    are defined in comms.cc, which is not among the sources.  Each of them
    goes through the transport of the object; the spec states "After
    Terminate, every operation fails."  [can_transfer] is the condition
    under which one of them can succeed at all: the channel is connected
    and its transport is there, with an open descriptor when it is the
    descriptor-based one. *)
Definition can_transfer (c : Comms) (fds : gset Z) : bool :=
  IsConnected c &&
  match raw_comms_ c with
  | RawCommsFdImpl fd => bool_decide (fd ∈ fds)
  | RawCommsPtr (Some _) => true
  | RawCommsPtr None => false
  end.

(** The members of an object before the body of a constructor runs: the
    default member initialisers ([abstract_uds_ = true],
    [state_ = State::kUnconnected]) and the default constructors of the
    others (an empty name, a variant holding a null [unique_ptr], no
    listening socket). *)
Definition default_members : Comms :=
  {| name_ := ""; abstract_uds_ := true; raw_comms_ := RawCommsPtr None;
     listening_comms_ := None; state_ := kUnconnected |}.

(** [Comms(Comms&& other) { *this = std::move(other); }]: the new object
    is laid out at the address [this], then the body move-assigns. *)
Definition move_construct (this other : nat) (w : world) : world :=
  move_assign this other
    {| objs := <[this := default_members]> (objs w); open_fds := open_fds w |}.

(** The default tags ("custom tags should be <0x80000000"). *)
Definition kTagBool : Z := 0x80000001.
Definition kTagInt8 : Z := 0x80000002.
Definition kTagUint8 : Z := 0x80000003.
Definition kTagInt16 : Z := 0x80000004.
Definition kTagUint16 : Z := 0x80000005.
Definition kTagInt32 : Z := 0x80000006.
Definition kTagUint32 : Z := 0x80000007.
Definition kTagInt64 : Z := 0x80000008.
Definition kTagUint64 : Z := 0x80000009.
Definition kTagString : Z := 0x80000100.
Definition kTagBytes : Z := 0x80000101.
Definition kTagProto2 : Z := 0x80000102.
Definition kTagFd : Z := 0x80000201.

(** The types the typed helpers are instantiated at, and their [sizeof]
    (one byte for [bool], as on every platform the library builds for). *)
Inductive int_type :=
| bool_t | int8_t | uint8_t | int16_t | uint16_t
| int32_t | uint32_t | int64_t | uint64_t.

Definition sizeof (T : int_type) : Z :=
  match T with
  | bool_t | int8_t | uint8_t => 1
  | int16_t | uint16_t => 2
  | int32_t | uint32_t => 4
  | int64_t | uint64_t => 8
  end.

(** What a typed helper hands to the transfer functions of comms.cc:
    [SendTLV(tag, length, value)] or [RecvInt(buffer, len, tag)]. *)
Inductive transfer :=
| SendTLV (tag : Z) (length : Z)
| RecvInt (len : Z) (tag : Z).

(** [template <typename T> bool SendGeneric(T value, uint32_t tag)]. *)
Definition SendGeneric (T : int_type) (tag : Z) : transfer :=
  SendTLV tag (sizeof T).

(** [template <typename T> bool RecvIntGeneric(T* output, uint32_t tag)]. *)
Definition RecvIntGeneric (T : int_type) (tag : Z) : transfer :=
  RecvInt (sizeof T) tag.

Definition RecvUint8 := RecvIntGeneric uint8_t kTagUint8.
Definition SendUint8 := SendGeneric uint8_t kTagUint8.
Definition RecvInt8 := RecvIntGeneric int8_t kTagInt8.
Definition SendInt8 := SendGeneric int8_t kTagInt8.
Definition RecvUint16 := RecvIntGeneric uint16_t kTagUint16.
Definition SendUint16 := SendGeneric uint16_t kTagUint16.
Definition RecvInt16 := RecvIntGeneric int16_t kTagInt16.
Definition SendInt16 := SendGeneric int16_t kTagInt16.
Definition RecvUint32 := RecvIntGeneric uint32_t kTagUint32.
Definition SendUint32 := SendGeneric uint32_t kTagUint32.
Definition RecvInt32 := RecvIntGeneric int32_t kTagInt32.
Definition SendInt32 := SendGeneric int32_t kTagInt32.
Definition RecvUint64 := RecvIntGeneric uint64_t kTagUint64.
Definition SendUint64 := SendGeneric uint64_t kTagUint64.
Definition RecvInt64 := RecvIntGeneric int64_t kTagInt64.
Definition SendInt64 := SendGeneric int64_t kTagInt64.
Definition RecvBool := RecvIntGeneric bool_t kTagBool.
Definition SendBool := SendGeneric bool_t kTagBool.

(** The typed helpers, a sender with the receiver of the same type. *)
Definition typed_helpers : list (transfer * transfer) :=
  [(SendUint8, RecvUint8); (SendInt8, RecvInt8);
   (SendUint16, RecvUint16); (SendInt16, RecvInt16);
   (SendUint32, RecvUint32); (SendInt32, RecvInt32);
   (SendUint64, RecvUint64); (SendInt64, RecvInt64);
   (SendBool, RecvBool)].

(** The tag and the length of a transfer. *)
Definition tag_of (t : transfer) : Z :=
  match t with SendTLV tag _ => tag | RecvInt _ tag => tag end.

Definition length_of (t : transfer) : Z :=
  match t with SendTLV _ length => length | RecvInt len _ => len end.

Definition is_send (t : transfer) : bool :=
  match t with SendTLV _ _ => true | RecvInt _ _ => false end.

Definition default_tags : list Z :=
  [kTagBool; kTagInt8; kTagUint8; kTagInt16; kTagUint16; kTagInt32;
   kTagUint32; kTagInt64; kTagUint64; kTagString; kTagBytes; kTagProto2;
   kTagFd].

End CommsModel.

(** ** sandbox2/network_proxy/server.cc (src/unnamed/part_001) *)

Module NetworkProxy.

(** Constants of the Linux headers the file includes. *)
Definition AF_INET : Z := 2.
Definition AF_INET6 : Z := 10.
Definition sizeof_sockaddr_in : Z := 16.
Definition sizeof_sockaddr_in6 : Z := 28.
Definition EINVAL : Z := 22.

Definition bytes := list Byte.byte.

Definition byte_at (addr : bytes) (i : nat) : Z :=
  Z.of_N (Byte.to_N (nth i addr Byte.x00)).

(** [saddr->sa_family]: the 16-bit field at offset 0 of the received bytes,
    in the byte order of the host. *)
Definition sa_family (big_endian : bool) (addr : bytes) : Z :=
  if big_endian then byte_at addr 0 * 256 + byte_at addr 1
  else byte_at addr 0 + byte_at addr 1 * 256.

(** What the server is constructed with or links against and the sources do
    not contain: the allowlist ([AllowedHosts::IsHostAllowed]) and the
    address printer ([AddrToString], filtering.cc), which returns the text
    or the message of an error status. *)
Record Config := {
  big_endian : bool;
  IsHostAllowed : bytes -> bool;
  AddrToString : bytes -> string + string;
}.

(** The data members a request can change. *)
Record Server := {
  violation_occurred_ : bool;     (* std::atomic<bool> *)
  violation_msg_ : string;
  fatal_error_ : bool;
}.

(** How the outside world answers during one call of
    [ProcessConnectRequest]: the outcome of each system or comms call the
    function may make. *)
Record Answers := {
  recv_bytes : option bytes;      (* RecvBytes: None when it fails *)
  send_int32_ok : bool;           (* SendInt32 *)
  socket_ret : Z;                 (* socket(): descriptor or negative *)
  socket_errno : Z;
  connect_ret : Z;                (* connect(): negative on failure *)
  connect_errno : Z;
  send_fd_ok : bool;              (* SendFD *)
}.

(** The calls that leave the server. *)
Inductive event :=
| RecvBytes (got : option bytes)
| SendInt32 (v : Z) (ok : bool)
| SendFD (fd : Z) (ok : bool)
| socket_call (family : Z) (ret : Z)
| connect_call (fd : Z) (addr : bytes) (ret : Z)
| close_call (fd : Z)                 (* ~FDCloser *)
| notify_violation_fn
| LogShutdown.

Definition set_fatal (s : Server) : Server :=
  {| violation_occurred_ := violation_occurred_ s;
     violation_msg_ := violation_msg_ s;
     fatal_error_ := true |}.

(** [void NetworkProxyServer::SendError(int saved_errno)]. *)
Definition SendError (a : Answers) (saved_errno : Z) (s : Server)
  : Server * list event :=
  (if send_int32_ok a then s else set_fatal s,
   [SendInt32 saved_errno (send_int32_ok a)]).

(** [void NetworkProxyServer::NotifySuccess()]. *)
Definition NotifySuccess (a : Answers) (s : Server) : Server * list event :=
  (if send_int32_ok a then s else set_fatal s,
   [SendInt32 0 (send_int32_ok a)]).

(** [void NetworkProxyServer::NotifyViolation(saddr)]. *)
Definition NotifyViolation (cfg : Config) (saddr : bytes) (s : Server)
  : Server * list event :=
  let msg := match AddrToString cfg saddr with
             | inl text => text
             | inr status_message => status_message
             end in
  ({| violation_occurred_ := true;
      violation_msg_ := msg;
      fatal_error_ := fatal_error_ s |},
   [notify_violation_fn]).

(** The test "Only IPv4 TCP and IPv6 TCP are supported": [&&] reads
    [sa_family] only when the size matched. *)
Definition supported (cfg : Config) (addr : bytes) : bool :=
  let n := Z.of_nat (length addr) in
  (if n =? sizeof_sockaddr_in
   then sa_family (big_endian cfg) addr =? AF_INET else false)
  || (if n =? sizeof_sockaddr_in6
      then sa_family (big_endian cfg) addr =? AF_INET6 else false).

(** [void NetworkProxyServer::ProcessConnectRequest()]. *)
Definition ProcessConnectRequest (cfg : Config) (a : Answers) (s : Server)
  : Server * list event :=
  match recv_bytes a with
  | None => (set_fatal s, [RecvBytes None])
  | Some addr =>
      let recv := [RecvBytes (Some addr)] in
      if negb (supported cfg addr) then
        let '(s, evs) := SendError a EINVAL s in (s, recv ++ evs)
      else if negb (IsHostAllowed cfg addr) then
        let '(s, evs) := NotifyViolation cfg addr s in (s, recv ++ evs)
      else
        let family := sa_family (big_endian cfg) addr in
        let new_socket := socket_ret a in
        let sock := [socket_call family new_socket] in
        if new_socket <? 0 then
          let '(s, evs) := SendError a (socket_errno a) s in
          (s, recv ++ sock ++ evs)
        else
          let conn := [connect_call new_socket addr (connect_ret a)] in
          if connect_ret a <? 0 then
            let '(s, evs) := SendError a (connect_errno a) s in
            (s, recv ++ sock ++ conn ++ evs ++ [close_call new_socket])
          else
            let '(s, evs) := NotifySuccess a s in
            if negb (fatal_error_ s) then
              (if send_fd_ok a then s else set_fatal s,
               recv ++ sock ++ conn ++ evs
                 ++ [SendFD new_socket (send_fd_ok a); close_call new_socket])
            else (s, recv ++ sock ++ conn ++ evs ++ [close_call new_socket])
  end.

(** The outcome of [Run] on a finite script of answers: the server's last
    state, what it did, the answers it never asked for, and whether the loop
    was left ([false]: the script ran out with the loop still waiting in
    [RecvBytes]). *)
Record Outcome := {
  final : Server;
  trace : list event;
  unused : list Answers;
  returned : bool;
}.

(** [void NetworkProxyServer::Run()]: one element of the script per
    iteration of the loop. *)
Fixpoint Run (cfg : Config) (script : list Answers) (s : Server) : Outcome :=
  if negb (fatal_error_ s) && negb (violation_occurred_ s) then
    match script with
    | [] => {| final := s; trace := []; unused := []; returned := false |}
    | a :: rest =>
        let '(s', evs) := ProcessConnectRequest cfg a s in
        let r := Run cfg rest s' in
        {| final := final r; trace := evs ++ trace r;
           unused := unused r; returned := returned r |}
    end
  else {| final := s; trace := [LogShutdown]; unused := script; returned := true |}.

(** The events that answer the sandboxee (an errno value, the success
    marker, a descriptor) and the ones that try to reach the target. *)
Definition is_reply (e : event) : bool :=
  match e with
  | SendInt32 _ _ | SendFD _ _ => true
  | _ => false
  end.

Definition is_connection_attempt (e : event) : bool :=
  match e with
  | socket_call _ _ | connect_call _ _ _ => true
  | _ => false
  end.

Definition is_violation_report (e : event) : bool :=
  match e with
  | notify_violation_fn => true
  | _ => false
  end.

(** The members after the constructor [NetworkProxyServer(fd,
    allowed_hosts, notify_violation_fn)]. *)
Definition NetworkProxyServer : Server :=
  {| violation_occurred_ := false; violation_msg_ := ""; fatal_error_ := false |}.

(** The status values sent to the sandboxee. *)
Definition is_status (e : event) : bool :=
  match e with
  | SendInt32 _ _ => true
  | _ => false
  end.

(** Closing a descriptor takes it out of the table of open ones. *)
Fixpoint close_fd (fd : Z) (open : list Z) : list Z :=
  match open with
  | [] => []
  | fd' :: open => if fd =? fd' then open else fd' :: close_fd fd open
  end.

(** The sockets the server has created and not closed, after [evs], when
    [open] were open before. *)
Fixpoint sockets_left (open : list Z) (evs : list event) : list Z :=
  match evs with
  | [] => open
  | socket_call _ ret :: evs =>
      sockets_left (if 0 <=? ret then ret :: open else open) evs
  | close_call fd :: evs => sockets_left (close_fd fd open) evs
  | _ :: evs => sockets_left open evs
  end.

(** The descriptors handed to the sandboxee. *)
Definition is_descriptor (e : event) : bool :=
  match e with
  | SendFD _ _ => true
  | _ => false
  end.

End NetworkProxy.

(** ** [SetWallTimeLimit] of [PtraceMonitor] and of [UnotifyMonitor] *)

Module Monitor.

(** [absl::Duration] and [absl::Time] are counted in nanoseconds (the time
    since the Unix epoch for [absl::Time]). *)
Definition Duration := Z.
Definition Time := Z.

Definition ZeroDuration : Duration := 0.
Definition Seconds (n : Z) : Duration := n * 1000000000.

Definition int64_min : Z := - 2 ^ 63.
Definition int64_max : Z := 2 ^ 63 - 1.

(** [absl::ToUnixMillis]: whole milliseconds since the epoch, rounded
    towards negative infinity, saturating at the bounds of [int64_t]. *)
Definition ToUnixMillis (t : Time) : Z :=
  Z.max int64_min (Z.min int64_max (t / 1000000)).

(** The two monitors, tagged. *)
Inductive variant := PtraceMonitor | UnotifyMonitor.

(** The member the setter writes: [std::atomic<int64_t> deadline_millis_]. *)
Record monitor := { deadline_millis_ : Z }.

(** What a call does besides returning: the atomic store and the wake-up
    of the monitor thread. *)
Inductive event :=
| store_deadline (millis : Z)     (* deadline_millis_.store(millis, relaxed) *)
| NotifyMonitor.

(** [void SetWallTimeLimit(absl::Duration limit) override] of the variant
    [v]; [now] is what [absl::Now()] returns during the call. *)
Definition SetWallTimeLimit (v : variant) (now : Time) (limit : Duration)
    (m : monitor) : monitor * list event :=
  match v with
  | PtraceMonitor =>
      if limit =? ZeroDuration then
        ({| deadline_millis_ := 0 |}, [store_deadline 0])
      else
        let deadline := now + limit in
        ({| deadline_millis_ := ToUnixMillis deadline |},
         [store_deadline (ToUnixMillis deadline)])
  | UnotifyMonitor =>
      if limit =? ZeroDuration then
        ({| deadline_millis_ := 0 |}, [store_deadline 0])
      else
        let deadline := now + limit in
        ({| deadline_millis_ := ToUnixMillis deadline |},
         [store_deadline (ToUnixMillis deadline); NotifyMonitor])
  end.

(** The monitor thread is woken by the call. *)
Definition poked (evs : list event) : bool :=
  existsb (λ e, match e with NotifyMonitor => true | _ => false end) evs.

(** The values stored into [deadline_millis_], in order. *)
Definition stored (evs : list event) : list Z :=
  omap (λ e, match e with store_deadline d => Some d | _ => None end) evs.

(** The value the setter is to store for [limit] at time [now]. *)
Definition deadline_for (now : Time) (limit : Duration) : Z :=
  if limit =? ZeroDuration then 0 else ToUnixMillis (now + limit).

(** The request flags of both monitors, [std::atomic_flag]:
    "False iff external kill is requested", "False iff dump stack is
    requested". *)
Record monitor_state := {
  timer : monitor;
  external_kill_request_flag_ : bool;
  dump_stack_request_flag_ : bool;
}.

(** [void Kill() override], the same in both monitors: [clear] makes the
    flag false. *)
Definition Kill (v : variant) (st : monitor_state) : monitor_state * list event :=
  match v with
  | PtraceMonitor | UnotifyMonitor =>
      ({| timer := timer st;
          external_kill_request_flag_ := false;
          dump_stack_request_flag_ := dump_stack_request_flag_ st |},
       [NotifyMonitor])
  end.

(** [void DumpStackTrace() override], the same in both monitors. *)
Definition DumpStackTrace (v : variant) (st : monitor_state)
  : monitor_state * list event :=
  match v with
  | PtraceMonitor | UnotifyMonitor =>
      ({| timer := timer st;
          external_kill_request_flag_ := external_kill_request_flag_ st;
          dump_stack_request_flag_ := false |},
       [NotifyMonitor])
  end.

(** The calls a user of a monitor can make, and a sequence of them. *)
Inductive request :=
| RequestKill
| RequestDumpStackTrace
| RequestSetWallTimeLimit (now : Time) (limit : Duration).

Definition do_request (v : variant) (r : request) (st : monitor_state)
  : monitor_state * list event :=
  match r with
  | RequestKill => Kill v st
  | RequestDumpStackTrace => DumpStackTrace v st
  | RequestSetWallTimeLimit now limit =>
      let '(m, evs) := SetWallTimeLimit v now limit (timer st) in
      ({| timer := m;
          external_kill_request_flag_ := external_kill_request_flag_ st;
          dump_stack_request_flag_ := dump_stack_request_flag_ st |}, evs)
  end.

Fixpoint do_requests (v : variant) (rs : list request) (st : monitor_state)
  : monitor_state * list event :=
  match rs with
  | [] => (st, [])
  | r :: rs =>
      let '(st, evs) := do_request v r st in
      let '(st, evs') := do_requests v rs st in
      (st, evs ++ evs')
  end.

(** The deadline the last [SetWallTimeLimit] of [rs] asks for; [d] when
    there is none. *)
Fixpoint last_deadline (d : Z) (rs : list request) : Z :=
  match rs with
  | [] => d
  | RequestSetWallTimeLimit now limit :: rs => last_deadline (deadline_for now limit) rs
  | _ :: rs => last_deadline d rs
  end.

Definition is_kill (r : request) : bool :=
  match r with RequestKill => true | _ => false end.

Definition is_dump (r : request) : bool :=
  match r with RequestDumpStackTrace => true | _ => false end.

End Monitor.

(** ** Seccomp-BPF programs (linux/filter.h, linux/seccomp.h, bpf_helper.h) *)

Module Bpf.

Local Open Scope N_scope.

(** [struct sock_filter]: a 16-bit [code], two 8-bit jump offsets and a
    32-bit operand. *)
Record sock_filter := { code : N; jt : N; jf : N; k : N }.

Definition BPF_STMT (code k : N) : sock_filter :=
  {| code := code; jt := 0; jf := 0; k := k |}.
Definition BPF_JUMP (code k jt jf : N) : sock_filter :=
  {| code := code; jt := jt; jf := jf; k := k |}.

(** Instruction classes, sizes, modes and operations. *)
Definition BPF_LD : N := 0x00.
Definition BPF_JMP : N := 0x05.
Definition BPF_RET : N := 0x06.
Definition BPF_W : N := 0x00.
Definition BPF_ABS : N := 0x20.
Definition BPF_JA : N := 0x00.
Definition BPF_JEQ : N := 0x10.
Definition BPF_K : N := 0x00.

Definition BPF_CLASS (code : N) : N := N.land code 0x07.
Definition BPF_OP (code : N) : N := N.land code 0xf0.

(** Return values of a seccomp filter. *)
Definition SECCOMP_RET_KILL_PROCESS : N := 0x80000000.
Definition SECCOMP_RET_KILL : N := 0x00000000.
Definition SECCOMP_RET_ERRNO : N := 0x00050000.
Definition SECCOMP_RET_ALLOW : N := 0x7fff0000.
Definition SECCOMP_RET_DATA : N := 0x0000ffff.

(** The macros of bpf_helper.h the tests use. *)
Definition ALLOW : sock_filter := BPF_STMT (BPF_RET + BPF_K) SECCOMP_RET_ALLOW.
Definition DENY : sock_filter := BPF_STMT (BPF_RET + BPF_K) SECCOMP_RET_KILL.
Definition KILL_PROCESS : sock_filter :=
  BPF_STMT (BPF_RET + BPF_K) SECCOMP_RET_KILL_PROCESS.
Definition ERRNO (x : N) : sock_filter :=
  BPF_STMT (BPF_RET + BPF_K)
           (SECCOMP_RET_ERRNO + N.land x SECCOMP_RET_DATA).
Definition LOAD_SYSCALL_NR : sock_filter := BPF_STMT (BPF_LD + BPF_W + BPF_ABS) 0.
Definition LOAD_ARCH : sock_filter := BPF_STMT (BPF_LD + BPF_W + BPF_ABS) 4.
Definition SYSCALL (nr : N) (action : sock_filter) : list sock_filter :=
  [BPF_JUMP (BPF_JMP + BPF_JEQ + BPF_K) nr 0 1; action].





(** The offsets an instruction can transfer control by (besides falling
    through to the next instruction). *)
Definition jump_offsets (ins : sock_filter) : list N :=
  if BPF_CLASS (code ins) =? BPF_JMP then
    if BPF_OP (code ins) =? BPF_JA then [k ins] else [jt ins; jf ins]
  else [].

End Bpf.

(** ** Paths (util/path.h) *)

Module Path.

Definition slash : ascii := "/"%char.
Definition dot : list ascii := ["."%char].
Definition dotdot : list ascii := ["."%char; "."%char].

(** [absl::StrSplit(path, '/')]: the pieces between the slashes; a path
    with [n] slashes has [n + 1] pieces, some possibly empty. *)
Fixpoint split (s : list ascii) : list (list ascii) :=
  match s with
  | [] => [[]]
  | c :: rest =>
      if Ascii.eqb c slash then [] :: split rest
      else match split rest with
           | p :: ps => (c :: p) :: ps
           | [] => [[c]]
           end
  end.

(** [absl::StrJoin(parts, "/")]. *)
Fixpoint join (parts : list (list ascii)) : list ascii :=
  match parts with
  | [] => []
  | [p] => p
  | p :: ps => p ++ slash :: join ps
  end.

(** [file::IsAbsolutePath]. *)
Definition IsAbsolutePath (path : list ascii) : bool :=
  match path with
  | c :: _ => Ascii.eqb c slash
  | [] => false
  end.

(** One piece of the path against the pieces kept so far (a deque, used
    at its back) and the count of [..] that had nothing to cancel. *)
Definition clean_step (st : nat * list (list ascii)) (part : list ascii)
  : nat * list (list ascii) :=
  let '(dotdot_num, parts) := st in
  if decide (part = dotdot) then
    match parts with
    | [] => (S dotdot_num, parts)
    | _ => (dotdot_num, removelast parts)
    end
  else if decide (part = dot) then (dotdot_num, parts)
  else (dotdot_num, parts ++ [part]).

(** Modelled from the spec: the path normaliser ([file::CleanPath],
    util/path.cc) is not among the sources.  The spec asks for paths that
    are "absolute, normalized, no [.]/[..]/double-slash/trailing-slash
    components"; the normal form of a path drops empty and [.] pieces,
    lets [..] cancel the piece before it, and joins what is left with
    single slashes (["/"] for an absolute path with nothing left, ["."]
    for a relative one). *)
Definition CleanPath (unclean_path : list ascii) : list ascii :=
  let pieces := filter (λ p, p ≠ []) (split unclean_path) in
  let '(dotdot_num, parts) := fold_left clean_step pieces (O, []) in
  if IsAbsolutePath unclean_path then
    match parts with
    | [] => [slash]
    | _ => join ([] :: parts)
    end
  else
    match replicate dotdot_num dotdot ++ parts with
    | [] => dot
    | parts => join parts
    end.

(** The canonical form in the spec's words: the path is ["/"], or it
    starts with a slash and what follows is a slash-separated list of
    pieces none of which is empty (no double slash, no trailing slash),
    [.] or [..]. *)
Definition good_piece (p : list ascii) : bool :=
  negb (bool_decide (p = [])) && negb (bool_decide (p = dot))
  && negb (bool_decide (p = dotdot)).

Definition canonical (path : list ascii) : bool :=
  match path with
  | c :: rest =>
      Ascii.eqb c slash
      && (bool_decide (rest = []) || forallb good_piece (split rest))
  | [] => false
  end.

End Path.

(** ** The policy builder, as sandbox2/policybuilder_test.cc drives it *)

Module Builder.

Import Bpf.

(** Syscall numbers and constants of the host (x86_64 Linux). *)
Definition __NR_write : N := 1.
Definition __NR_munmap : N := 11.
Definition __NR_chdir : N := 80.
Definition __NR_fchmod : N := 91.
Definition __NR_umask : N := 95.
Definition __NR_chroot : N := 161.
Definition __NR_openat : N := 257.
Definition __NR_ptrace : N := 101.
Definition __NR_bpf : N := 321.
Definition ENOENT : N := 2.
Definition AUDIT_ARCH_X86_64 : N := 0xC000003E.

(** [absl::Status] with the two codes the builder reports, and
    [absl::StatusOr]. *)
Inductive StatusCode := kInvalidArgument | kFailedPrecondition.

Record Status := { status_code : StatusCode; message : string }.

Definition InvalidArgumentError (msg : string) : Status :=
  {| status_code := kInvalidArgument; message := msg |}.
Definition FailedPreconditionError (msg : string) : Status :=
  {| status_code := kFailedPrecondition; message := msg |}.

Inductive StatusOr (A : Type) :=
| Ok (value : A)
| Err (status : Status).
Arguments Ok {A} value.
Arguments Err {A} status.

Definition IsOk {A} (r : StatusOr A) : bool :=
  match r with Ok _ => true | Err _ => false end.

Definition StatusIs {A} (c : StatusCode) (r : StatusOr A) : bool :=
  match r with
  | Ok _ => false
  | Err st => match status_code st, c with
              | kInvalidArgument, kInvalidArgument => true
              | kFailedPrecondition, kFailedPrecondition => true
              | _, _ => false
              end
  end.

(** Modelled from the spec: [PolicyBuilder::ValidateAbsolutePath]
    (policybuilder.cc) is not among the sources; the test reaches it through
    [PolicyBuilderPeer].  "Path validation rejects any non-canonical
    absolute path and accepts [/] and any canonical path": a path is
    accepted, and returned as it is, when it is absolute and equal to its
    normal form; every other path is an invalid argument.  (The spec also
    calls the components of a path length-bounded, without a bound; the
    test accepts a component of 38 characters, and the model sets none.) *)
Definition ValidateAbsolutePath (path : string) : StatusOr string :=
  let p := list_ascii_of_string path in
  if negb (Path.IsAbsolutePath p) then
    Err (InvalidArgumentError ("Path is not absolute: " ++ path))
  else
    let fixed_path := Path.CleanPath p in
    if decide (fixed_path = p) then Ok (string_of_list_ascii fixed_path)
    else Err (InvalidArgumentError ("Path was not normalized: " ++ path)).

(** The entries of the mount tree the namespace helpers add. *)
Inductive MountEntry :=
| FileMount (path : string)
| DirMount (path : string)
| TmpfsMount (path : string) (size : N).

(** Modelled from the spec: [class PolicyBuilder] (policybuilder.h and
    policybuilder.cc) is not among the sources.  The state is what the spec
    and the tests name: the user's BPF rules in insertion order
    ([user_policy_], whose size [PolicyBuilderPeer::policy_size] reads), the
    syscalls that already have an allow or block rule, the mount
    descriptors, the network flags, the error a rejected call left behind
    and the single-shot latch of [TryBuild]. *)
Record PolicyBuilder := {
  user_policy_ : list sock_filter;
  handled_syscalls_ : gset N;
  mounts_ : list MountEntry;
  use_forkserver_shared_netns_ : bool;
  allow_unrestricted_networking_ : bool;
  last_status_ : option Status;          (* None: OK *)
  already_built_ : bool;
}.

(** [PolicyBuilder builder;] *)
Definition new_builder : PolicyBuilder :=
  {| user_policy_ := []; handled_syscalls_ := ∅; mounts_ := [];
     use_forkserver_shared_netns_ := false;
     allow_unrestricted_networking_ := false;
     last_status_ := None; already_built_ := false |}.

(** [int policy_size() const] of [PolicyBuilderPeer]. *)
Definition policy_size (b : PolicyBuilder) : nat := length (user_policy_ b).

Definition SetError (st : Status) (b : PolicyBuilder) : PolicyBuilder :=
  {| user_policy_ := user_policy_ b; handled_syscalls_ := handled_syscalls_ b;
     mounts_ := mounts_ b;
     use_forkserver_shared_netns_ := use_forkserver_shared_netns_ b;
     allow_unrestricted_networking_ := allow_unrestricted_networking_ b;
     last_status_ := Some st; already_built_ := already_built_ b |}.

Definition append_policy (frag : list sock_filter) (b : PolicyBuilder)
  : PolicyBuilder :=
  {| user_policy_ := user_policy_ b ++ frag;
     handled_syscalls_ := handled_syscalls_ b;
     mounts_ := mounts_ b;
     use_forkserver_shared_netns_ := use_forkserver_shared_netns_ b;
     allow_unrestricted_networking_ := allow_unrestricted_networking_ b;
     last_status_ := last_status_ b; already_built_ := already_built_ b |}.

Definition mark_handled (num : N) (b : PolicyBuilder) : PolicyBuilder :=
  {| user_policy_ := user_policy_ b;
     handled_syscalls_ := {[ num ]} ∪ handled_syscalls_ b;
     mounts_ := mounts_ b;
     use_forkserver_shared_netns_ := use_forkserver_shared_netns_ b;
     allow_unrestricted_networking_ := allow_unrestricted_networking_ b;
     last_status_ := last_status_ b; already_built_ := already_built_ b |}.

Definition add_mount (m : MountEntry) (b : PolicyBuilder) : PolicyBuilder :=
  {| user_policy_ := user_policy_ b; handled_syscalls_ := handled_syscalls_ b;
     mounts_ := mounts_ b ++ [m];
     use_forkserver_shared_netns_ := use_forkserver_shared_netns_ b;
     allow_unrestricted_networking_ := allow_unrestricted_networking_ b;
     last_status_ := last_status_ b; already_built_ := already_built_ b |}.

(** Modelled from the spec: [PolicyBuilder::AllowSyscall] and
    [PolicyBuilder::BlockSyscallWithErrno].  "[AllowSyscall(n)] may be
    called repeatedly without growing the program": a rule that allows or
    blocks a whole syscall is emitted once per syscall.  The test
    [Testpolicy_size] sees no growth when [AllowSyscall] is repeated, nor
    when [BlockSyscallWithErrno(__NR_munmap, 1)] follows an allow rule for
    [munmap]. *)
Definition AllowSyscall (num : N) (b : PolicyBuilder) : PolicyBuilder :=
  if decide (num ∈ handled_syscalls_ b) then b
  else append_policy (SYSCALL num ALLOW) (mark_handled num b).

Definition BlockSyscallWithErrno (num : N) (error : N) (b : PolicyBuilder)
  : PolicyBuilder :=
  if decide (num ∈ handled_syscalls_ b) then b
  else append_policy (SYSCALL num (ERRNO error)) (mark_handled num b).

(** Modelled from the spec: the check behind "a rule whose embedded BPF
    contains an out-of-bounds jump -- rejected".  A jump of the rule may
    skip at most the instructions of the rule that follow it (the rule of
    the test [AddPolicyOnSyscallJumpOutOfBounds], a single instruction that
    jumps two ahead, is out of bounds). *)
Definition CheckBpfBounds (filter : sock_filter) (max_jump : nat) : bool :=
  if (BPF_CLASS (code filter) =? BPF_JMP)%N then
    if (BPF_OP (code filter) =? BPF_JA)%N
    then (k filter <=? N.of_nat max_jump)%N
    else (jt filter <=? N.of_nat max_jump)%N
         && (jf filter <=? N.of_nat max_jump)%N
  else true.

Fixpoint policy_in_bounds (policy : list sock_filter) : bool :=
  match policy with
  | [] => true
  | filter :: rest => CheckBpfBounds filter (length rest) && policy_in_bounds rest
  end.

Definition uint8 (n : nat) : N := (N.of_nat n mod 2 ^ 8)%N.
Definition uint32 (n : nat) : N := (N.of_nat n mod 2 ^ 32)%N.

Definition kMaxShortJump : nat := 255.

(** The tests of the syscall numbers are put in front of the rule one by
    one, the last number first.  [out] is the fragment built so far,
    [do_policy_loc] its length when the place to jump to on a match (the
    rule, or the latest trampoline to it) was at its front, and [last]
    says that no test has been emitted yet. *)
Record jump_state := {
  out : list sock_filter;
  do_policy_loc : nat;
  last : bool;
}.

Definition add_syscall_jump (policy_len : nat) (st : jump_state) (num : N)
  : jump_state :=
  (* The last number of the list skips the rule when it does not match:
     directly, or through an absolute jump when the rule is too long. *)
  let '(out1, jf1) :=
    if last st then
      if (kMaxShortJump <? length (out st))%nat
      then (BPF_STMT (BPF_JMP + BPF_JA) (uint32 (length (out st))) :: out st, 0%N)
      else (out st, uint8 (length (out st)))
    else (out st, 0%N) in
  (* A trampoline to the rule when a match is out of reach of a short jump. *)
  let '(out2, loc2, jf2) :=
    if (kMaxShortJump <? length out1 - do_policy_loc st)%nat
    then (BPF_STMT (BPF_JMP + BPF_JA) (uint32 (length out1 - policy_len - 1))
            :: out1,
          S (length out1), ((jf1 + 1) mod 2 ^ 8)%N)
    else (out1, do_policy_loc st, jf1) in
  let jt := uint8 (length out2 - loc2) in
  {| out := BPF_JUMP (BPF_JMP + BPF_JEQ + BPF_K) num jt jf2 :: out2;
     do_policy_loc := loc2;
     last := false |}.

(** Modelled from the spec: the fragment of one [AddPolicyOnSyscalls] call.
    "Each policy rule is emitted as a small BPF fragment whose entry loads
    [nr] and whose exit is either a terminal action or a forward jump to the
    next rule"; "BPF jumps are 8-bit; long jumps require chained
    trampolines, which the assembler inserts automatically when a span
    exceeds 255 instructions".  The fragment is the tests of the numbers,
    the rule, and a reload of the syscall number for the rules after it. *)
Definition syscalls_fragment (nums : list N) (policy : list sock_filter)
  : list sock_filter :=
  let start := {| out := policy ++ [LOAD_SYSCALL_NR];
                  do_policy_loc := S (length policy);
                  last := true |} in
  out (fold_left (add_syscall_jump (length policy)) (rev nums) start).

(** Modelled from the spec: why a call of [AddPolicyOnSyscalls] is
    refused, if it is.  The first two reasons are the spec's validation
    rules (a) and (b).  The third stands for what the test
    [CanBypassPtrace] asserts, that a builder with a user rule on [ptrace]
    followed by [BlockSyscallWithErrno(ptrace)] does not build.  The
    sources show neither the call that raises this error nor its code: the
    model raises it here, as an invalid-argument error, and treats [bpf],
    which the default policy blocks together with [ptrace], alike.  The
    statements on user rules leave [ptrace] and [bpf] out, or use of this
    reason only that the build fails, as the test does. *)
Definition policy_rejection (nums : list N) (policy : list sock_filter)
  : option Status :=
  if decide (nums = []) then
    Some (InvalidArgumentError "Cannot add a policy for empty list of syscalls")
  else if negb (policy_in_bounds policy) then
    Some (InvalidArgumentError "bpf jump out of bounds")
  else if bool_decide (__NR_bpf ∈ nums) || bool_decide (__NR_ptrace ∈ nums) then
    Some (InvalidArgumentError "cannot add policy for bpf or ptrace syscall")
  else None.

(** Modelled from the spec: [PolicyBuilder::AddPolicyOnSyscalls].  An
    accepted rule is appended ("AddPolicyOnSyscall always appends"), a
    refused one leaves its error in the builder.  The spec and the tests do
    not tell whether a refused rule is still stored in [user_policy_]:
    [keeps_rejected] covers both answers. *)
Definition AddPolicyOnSyscalls (keeps_rejected : bool) (nums : list N)
    (policy : list sock_filter) (b : PolicyBuilder) : PolicyBuilder :=
  match policy_rejection nums policy with
  | Some st =>
      SetError st (if keeps_rejected
                   then append_policy (syscalls_fragment nums policy) b
                   else b)
  | None => append_policy (syscalls_fragment nums policy) b
  end.

Definition AddPolicyOnSyscall (keeps_rejected : bool) (num : N)
    (policy : list sock_filter) (b : PolicyBuilder) : PolicyBuilder :=
  AddPolicyOnSyscalls keeps_rejected [num] policy b.

(** Modelled from the spec: the namespace helpers.  "Namespace helpers do
    not mutate the BPF"; "An absolute path that fails canonical-form
    validation -- rejected". *)
Definition add_path_mount (mk : string -> MountEntry) (path : string)
    (b : PolicyBuilder) : PolicyBuilder :=
  match ValidateAbsolutePath path with
  | Ok p => add_mount (mk p) b
  | Err st => SetError st b
  end.

Definition AddFile (path : string) : PolicyBuilder -> PolicyBuilder :=
  add_path_mount FileMount path.
Definition AddDirectory (path : string) : PolicyBuilder -> PolicyBuilder :=
  add_path_mount DirMount path.
Definition AddTmpfs (path : string) (size : N) : PolicyBuilder -> PolicyBuilder :=
  add_path_mount (λ p, TmpfsMount p size) path.

Definition UseForkServerSharedNetNs (b : PolicyBuilder) : PolicyBuilder :=
  {| user_policy_ := user_policy_ b; handled_syscalls_ := handled_syscalls_ b;
     mounts_ := mounts_ b;
     use_forkserver_shared_netns_ := true;
     allow_unrestricted_networking_ := allow_unrestricted_networking_ b;
     last_status_ := last_status_ b; already_built_ := already_built_ b |}.

(** [builder.Allow(UnrestrictedNetworking())]. *)
Definition AllowUnrestrictedNetworking (b : PolicyBuilder) : PolicyBuilder :=
  {| user_policy_ := user_policy_ b; handled_syscalls_ := handled_syscalls_ b;
     mounts_ := mounts_ b;
     use_forkserver_shared_netns_ := use_forkserver_shared_netns_ b;
     allow_unrestricted_networking_ := true;
     last_status_ := last_status_ b; already_built_ := already_built_ b |}.

(** The built policy. *)
Record Policy := {
  program : list sock_filter;
  policy_mounts : list MountEntry;
  shared_netns : bool;
  unrestricted_networking : bool;
}.

(** Modelled from the spec: the compilation order of section 4.2.
    1. architecture prologue: load [data.arch]; if not the host
       architecture, [RET KILL_PROCESS]; 2. load [data.nr]; 4. the user
       rules, in insertion order; 5. the default action (kill).  (Step 3,
       the built-in foundations, are rules the helpers add like user
       rules.) *)
Definition prologue : list sock_filter :=
  [LOAD_ARCH;
   BPF_JUMP (BPF_JMP + BPF_JEQ + BPF_K) AUDIT_ARCH_X86_64 1 0;
   KILL_PROCESS;
   LOAD_SYSCALL_NR].

Definition compile (user_policy : list sock_filter) : list sock_filter :=
  prologue ++ user_policy ++ [KILL_PROCESS].

Definition set_built (b : PolicyBuilder) : PolicyBuilder :=
  {| user_policy_ := user_policy_ b; handled_syscalls_ := handled_syscalls_ b;
     mounts_ := mounts_ b;
     use_forkserver_shared_netns_ := use_forkserver_shared_netns_ b;
     allow_unrestricted_networking_ := allow_unrestricted_networking_ b;
     last_status_ := last_status_ b; already_built_ := true |}.

(** Modelled from the spec: [PolicyBuilder::TryBuild].  A builder that
    holds an error reports it; "a policy can be built at most once; a
    second attempt fails with a precondition error" (the test expects the
    message below). *)
Definition TryBuild (b : PolicyBuilder) : StatusOr Policy * PolicyBuilder :=
  match last_status_ b with
  | Some st => (Err st, b)
  | None =>
      if already_built_ b then
        (Err (FailedPreconditionError "Can only build policy once."), b)
      else
        (Ok {| program := compile (user_policy_ b);
               policy_mounts := mounts_ b;
               shared_netns := use_forkserver_shared_netns_ b;
               unrestricted_networking := allow_unrestricted_networking_ b |},
         set_built b)
  end.

(** The calls a client can make on a builder between its construction and
    a build, and a sequence of them. *)
Inductive call :=
| CallAllowSyscall (num : N)
| CallBlockSyscallWithErrno (num error : N)
| CallAddPolicyOnSyscall (num : N) (policy : list sock_filter)
| CallAddPolicyOnSyscalls (nums : list N) (policy : list sock_filter)
| CallAddFile (path : string)
| CallAddDirectory (path : string)
| CallAddTmpfs (path : string) (size : N)
| CallUseForkServerSharedNetNs
| CallAllowUnrestrictedNetworking
| CallTryBuild.

Definition do_call (keeps_rejected : bool) (c : call) (b : PolicyBuilder)
  : PolicyBuilder :=
  match c with
  | CallAllowSyscall num => AllowSyscall num b
  | CallBlockSyscallWithErrno num error => BlockSyscallWithErrno num error b
  | CallAddPolicyOnSyscall num policy =>
      AddPolicyOnSyscall keeps_rejected num policy b
  | CallAddPolicyOnSyscalls nums policy =>
      AddPolicyOnSyscalls keeps_rejected nums policy b
  | CallAddFile path => AddFile path b
  | CallAddDirectory path => AddDirectory path b
  | CallAddTmpfs path size => AddTmpfs path size b
  | CallUseForkServerSharedNetNs => UseForkServerSharedNetNs b
  | CallAllowUnrestrictedNetworking => AllowUnrestrictedNetworking b
  | CallTryBuild => snd (TryBuild b)
  end.

Definition do_calls (keeps_rejected : bool) (cs : list call) (b : PolicyBuilder)
  : PolicyBuilder :=
  fold_left (λ b c, do_call keeps_rejected c b) cs b.

(** What the test [Testpolicy_size] asserts after each call
    ([assert_increased], [assert_same]), and the check of a whole list of
    calls against such expectations. *)
Inductive size_change := assert_increased | assert_same.

Fixpoint sizes_as_asserted (keeps_rejected : bool)
    (steps : list (call * size_change)) (b : PolicyBuilder) : bool :=
  match steps with
  | [] => true
  | (c, expected) :: steps =>
      let b' := do_call keeps_rejected c b in
      match expected with
      | assert_increased => (policy_size b <? policy_size b')%nat
      | assert_same => (policy_size b =? policy_size b')%nat
      end && sizes_as_asserted keeps_rejected steps b'
  end.

(** Every jump of [prog] lands on an instruction of [prog], or at most
    [slack] instructions past its end. *)
Definition jumps_within (slack : nat) (prog : list sock_filter) : Prop :=
  ∀ (i : nat) (ins : sock_filter) (off : N),
    prog !! i = Some ins → off ∈ jump_offsets ins →
    (i + 1 + N.to_nat off < length prog + slack)%nat.

(** Every jump target lies in [[0, program_len)]. *)
Definition jumps_in_program (prog : list sock_filter) : Prop :=
  jumps_within 0 prog.

(** The builder holds no error, or only rules whose jumps stay inside. *)
Definition builder_ok (b : PolicyBuilder) : Prop :=
  last_status_ b = None → jumps_within 1 (user_policy_ b).

(** The builder holds an invalid-argument error. *)
Definition holds_invalid_argument (b : PolicyBuilder) : Prop :=
  ∃ st, last_status_ b = Some st ∧ status_code st = kInvalidArgument.

End Builder.

(** ** Sample inputs

    Concrete values at which the general statements of Part II are
    instantiated. *)

Module Samples.

Import ListNotations.

(** A log line at [f.cc:1] into a buffer of 3000 characters
    ([kLogBufSize] in raw_logging.h), whose prefix takes 16 of them. *)
Definition log_file : list ascii := RawLogging.chars "f.cc".
Definition log_stack : list ascii := replicate 3000 "?"%char.
Definition log_text (n : nat) : list ascii := replicate n "a"%char.

(** Two connected channels, on descriptors 3 and 4, at addresses 1 and 2. *)
Definition comms_a : CommsModel.Comms :=
  {| CommsModel.name_ := "a"; CommsModel.abstract_uds_ := true;
     CommsModel.raw_comms_ := CommsModel.RawCommsFdImpl 3;
     CommsModel.listening_comms_ := None;
     CommsModel.state_ := CommsModel.kConnected |}.
Definition comms_b : CommsModel.Comms :=
  {| CommsModel.name_ := "b"; CommsModel.abstract_uds_ := true;
     CommsModel.raw_comms_ := CommsModel.RawCommsFdImpl 4;
     CommsModel.listening_comms_ := None;
     CommsModel.state_ := CommsModel.kConnected |}.
Definition comms_world : CommsModel.world :=
  {| CommsModel.objs := <[2%nat := comms_b]> {[ 1%nat := comms_a ]};
     CommsModel.open_fds := {[ 3; 4 ]} |}.

(** A proxy that allows nothing, on a little-endian host; a request of
    three bytes; a request for 8.8.8.8:53 as a [sockaddr_in]. *)
Definition deny_all : NetworkProxy.Config :=
  {| NetworkProxy.big_endian := false;
     NetworkProxy.IsHostAllowed := λ _, false;
     NetworkProxy.AddrToString := λ _, inl "8.8.8.8"%string |}.
Definition allow_all : NetworkProxy.Config :=
  {| NetworkProxy.big_endian := false;
     NetworkProxy.IsHostAllowed := λ _, true;
     NetworkProxy.AddrToString := λ _, inl "8.8.8.8"%string |}.
Definition idle_server : NetworkProxy.Server :=
  {| NetworkProxy.violation_occurred_ := false;
     NetworkProxy.violation_msg_ := "";
     NetworkProxy.fatal_error_ := false |}.
Definition short_request : NetworkProxy.bytes :=
  [Byte.x02; Byte.x00; Byte.x00].
Definition dns_request : NetworkProxy.bytes :=
  [Byte.x02; Byte.x00; Byte.x00; Byte.x35; Byte.x08; Byte.x08; Byte.x08; Byte.x08;
   Byte.x00; Byte.x00; Byte.x00; Byte.x00; Byte.x00; Byte.x00; Byte.x00; Byte.x00].
Definition answers_to (request : NetworkProxy.bytes) : NetworkProxy.Answers :=
  {| NetworkProxy.recv_bytes := Some request;
     NetworkProxy.send_int32_ok := true;
     NetworkProxy.socket_ret := 5; NetworkProxy.socket_errno := 0;
     NetworkProxy.connect_ret := 0; NetworkProxy.connect_errno := 0;
     NetworkProxy.send_fd_ok := true |}.

Definition failed_recv : NetworkProxy.Answers :=
  {| NetworkProxy.recv_bytes := None;
     NetworkProxy.send_int32_ok := true;
     NetworkProxy.socket_ret := 5; NetworkProxy.socket_errno := 0;
     NetworkProxy.connect_ret := 0; NetworkProxy.connect_errno := 0;
     NetworkProxy.send_fd_ok := true |}.


(** The rule of the test [AddPolicyOnSyscallJumpOutOfBounds]. *)
Definition jump_out_of_bounds : Bpf.sock_filter :=
  Bpf.BPF_JUMP (Bpf.BPF_JMP + Bpf.BPF_JEQ + Bpf.BPF_K) 1 2 0.

(** A few calls on a builder. *)
Definition some_calls : list Builder.call :=
  [Builder.CallAllowSyscall 60;
   Builder.CallAddPolicyOnSyscalls [1%N; 2%N] [Bpf.ERRNO 13];
   Builder.CallAddFile "/usr/bin/find";
   Builder.CallBlockSyscallWithErrno 2 1].

(** A source file with a path of [n] characters. *)
Definition long_file (n : nat) : list ascii := replicate n "d"%char.

(** A stand-in for [absl::SimpleAtoi] that knows the text ["2"]. *)
Definition atoi_of_2 (text : string) : option Z :=
  if String.eqb text "2" then Some 2 else None.

(** An allowed request for 8.8.8.8:53 whose calls all succeed. *)
Definition dns_script : list NetworkProxy.Answers := [answers_to dns_request].

End Samples.

(* ===================================================================== *)
(** * Part II: properties                                                 *)
(* ===================================================================== *)

(** ** The raw logger stays inside its buffer *)

Section RawLoggingFacts.

Import RawLogging.

Lemma store_in_bounds mem off bs :
  0 <= off → off + Z.of_nat (length bs) <= Z.of_nat (length mem) →
  ∃ mem', store mem off bs = Some mem' ∧ length mem' = length mem
          ∧ ∀ x, x ∈ bs → x ∈ mem'.
Proof.
  intros Hoff Hend. unfold store.
  destruct (Z.leb_spec 0 off); [|lia].
  destruct (Z.leb_spec (off + Z.of_nat (length bs)) (Z.of_nat (length mem))); [|lia].
  simpl. eexists; split; [reflexivity|]. split.
  - rewrite !length_app, length_take, length_drop. lia.
  - intros x Hx. rewrite !elem_of_app. auto.
Qed.

Lemma to_size_t_small n : 0 <= n < 2 ^ 64 → to_size_t n = n.
Proof. intros. unfold to_size_t. now apply Z.mod_small. Qed.

Lemma vsnprintf_in_bounds mem c s :
  cursor_ok (length mem) c →
  ∃ mem' n, vsnprintf mem c (Some s) = Some (mem', n)
    ∧ length mem' = length mem
    ∧ (NUL ∈ mem → NUL ∈ mem')
    ∧ (0 < size c → NUL ∈ mem')
    ∧ 0 <= n.
Proof.
  intros (Hb & Hs & Hend & Hmax). unfold vsnprintf.
  rewrite to_size_t_small by lia.
  destruct (Z.eqb_spec (size c) 0) as [Hz|Hz].
  { exists mem, (Z.of_nat (length s)). repeat split; auto; try lia. }
  destruct (store_in_bounds mem (buf c) (take (Z.to_nat (size c - 1)) s ++ [NUL]))
    as (mem' & Hst & Hlen & Hin); [lia| |].
  { rewrite length_app, length_take. simpl. lia. }
  rewrite Hst. exists mem', (Z.of_nat (length s)).
  assert (NUL ∈ mem') by (apply Hin; rewrite elem_of_app, list_elem_of_singleton; auto).
  repeat split; auto. lia.
Qed.

Lemma DoRawLog_in_bounds mem c text :
  cursor_ok (length mem) c →
  ∃ mem' c' ok, DoRawLog mem c (Some text) = Some (mem', c', ok)
    ∧ length mem' = length mem ∧ cursor_ok (length mem') c'
    ∧ (NUL ∈ mem → NUL ∈ mem')
    ∧ (0 < size c → NUL ∈ mem').
Proof.
  intros Hc. destruct (vsnprintf_in_bounds mem c text Hc)
    as (mem' & n & Hv & Hlen & Hnul & Hnew & Hn).
  unfold DoRawLog. rewrite Hv. destruct Hc as (Hb & Hs & Hend & Hmax).
  destruct (Z.ltb_spec n 0); simpl.
  { exists mem', c, false. rewrite Hlen. repeat split; auto. }
  destruct (Z.ltb_spec (size c) n); simpl.
  { exists mem', c, false. rewrite Hlen. repeat split; auto. }
  eexists mem', _, true. split; [reflexivity|]. rewrite Hlen.
  repeat split; simpl; auto; lia.
Qed.

Lemma VADoRawLog_in_bounds mem c text :
  cursor_ok (length mem) c →
  ∃ mem' c' ok, VADoRawLog mem c (Some text) = Some (mem', c', ok)
    ∧ length mem' = length mem ∧ cursor_ok (length mem') c'
    ∧ (NUL ∈ mem → NUL ∈ mem').
Proof.
  intros Hc. destruct (vsnprintf_in_bounds mem c text Hc)
    as (mem' & n & Hv & Hlen & Hnul & Hnew & Hn).
  unfold VADoRawLog. rewrite Hv. destruct Hc as (Hb & Hs & Hend & Hmax).
  rewrite to_size_t_small by lia.
  assert (Hk : sizeof_kTruncated = 26) by reflexivity.
  destruct ((n <? 0) || (size c <? n)) eqn:Hchop.
  - destruct (Z.ltb_spec sizeof_kTruncated (size c));
      (eexists mem', _, false; split; [reflexivity|]);
      rewrite Hlen; repeat split; simpl; auto; lia.
  - apply orb_false_elim in Hchop as [H1 H2].
    apply Z.ltb_ge in H1, H2.
    eexists mem', _, true; split; [reflexivity|].
    rewrite Hlen; repeat split; simpl; auto; lia.
Qed.

Lemma strlen_terminated mem :
  NUL ∈ mem → ∃ n, strlen mem = Some n ∧ (n < length mem)%nat.
Proof.
  induction mem as [|ch rest IH]; intros Hin.
  { by apply elem_of_nil in Hin. }
  simpl. destruct (Ascii.eqb_spec ch NUL) as [->|Hne].
  { exists 0%nat. split; [done|lia]. }
  apply elem_of_cons in Hin as [Heq|Hin]; [congruence|].
  destruct (IH Hin) as (n & -> & Hn). exists (S n). split; [done|lia].
Qed.

(** The whole of [RawLogVA] runs without undefined behaviour, whatever the
    uninitialised buffer holds and whatever text the message formats to: no
    store leaves the array of [kLogBufSize] characters, [strlen] finds a
    terminator inside it, and the line handed to the output is shorter than
    the array. *)
Theorem RawLogVA_stays_in_buffer kLogBufSize android stack severity file line
    (msg : list ascii) :
  0 < kLogBufSize < 2 ^ 31 →
  Z.of_nat (length stack) = kLogBufSize →
  ∃ text,
    RawLogVA kLogBufSize android stack severity file line (Some msg)
    = Some ((if android then [android_log_print text]
             else [SafeWriteToStderr text])
            ++ match severity with kFatal => [abort] | _ => [] end)
    ∧ Z.of_nat (length text) < kLogBufSize.
Proof.
  intros HK Hlen. unfold RawLogVA.
  set (c0 := {| buf := 0; size := kLogBufSize |}).
  assert (Hc0 : cursor_ok (length stack) c0).
  { unfold cursor_ok; simpl. lia. }
  destruct (DoRawLog_in_bounds stack c0 (prefix_text file line) Hc0)
    as (m1 & c1 & ok1 & -> & Hl1 & Hc1 & _ & Hn1).
  simpl. assert (Hnul1 : NUL ∈ m1) by (apply Hn1; simpl; lia).
  destruct (VADoRawLog_in_bounds m1 c1 msg Hc1)
    as (m2 & c2 & no_chop & -> & Hl2 & Hc2 & Hn2).
  simpl. assert (Hnul2 : NUL ∈ m2) by auto.
  assert (∃ m3 c3 ok3,
    (if no_chop then DoRawLog m2 c2 (Some [LF])
     else DoRawLog m2 c2 (Some kTruncated)) = Some (m3, c3, ok3)
    ∧ length m3 = length m2 ∧ NUL ∈ m3) as (m3 & c3 & ok3 & -> & Hl3 & Hnul3).
  { destruct no_chop;
      [destruct (DoRawLog_in_bounds m2 c2 [LF] Hc2)
         as (m3 & c3 & ok3 & ? & ? & ? & ? & ?)
      |destruct (DoRawLog_in_bounds m2 c2 kTruncated Hc2)
         as (m3 & c3 & ok3 & ? & ? & ? & ? & ?)];
      exists m3, c3, ok3; auto. }
  simpl. destruct (strlen_terminated m3 Hnul3) as (n & -> & Hn).
  simpl. eexists; split; [reflexivity|].
  rewrite length_take. lia.
Qed.

End RawLoggingFacts.

(** ** The raw logger when the message fills the buffer exactly *)

Section RawLoggingExactFit.

Import RawLogging.

Lemma strlen_app_nul (s rest : list ascii) :
  NUL ∉ s → strlen (s ++ NUL :: rest) = Some (length s).
Proof.
  induction s as [|ch s IH]; intros Hs; simpl.
  - reflexivity.
  - apply not_elem_of_cons in Hs as [Hne Hs].
    destruct (Ascii.eqb_spec ch NUL); [congruence|].
    rewrite IH by assumption. reflexivity.
Qed.

Lemma store_inside (mem : list ascii) (off : Z) (bs : list ascii) :
  0 <= off → off + Z.of_nat (length bs) <= Z.of_nat (length mem) →
  store mem off bs
  = Some (take (Z.to_nat off) mem ++ bs ++ drop (Z.to_nat off + length bs) mem).
Proof.
  intros H0 H1. unfold store.
  rewrite (proj2 (Z.leb_le 0 off)) by assumption.
  rewrite (proj2 (Z.leb_le _ _)) by assumption. reflexivity.
Qed.

Lemma store_at_end (pre old bs : list ascii) :
  length old = length bs →
  store (pre ++ old) (Z.of_nat (length pre)) bs = Some (pre ++ bs).
Proof.
  intros Hlen. rewrite store_inside by (rewrite ?length_app; lia).
  rewrite Nat2Z.id, take_app_length.
  rewrite drop_ge by (rewrite length_app; lia).
  by rewrite app_nil_r.
Qed.

Lemma store_at_start (old rest bs : list ascii) :
  length old = length bs →
  store (old ++ rest) 0 bs = Some (bs ++ rest).
Proof.
  intros Hlen. rewrite store_inside by (rewrite ?length_app; lia).
  simpl. rewrite <- Hlen, drop_app_length. reflexivity.
Qed.

(** When the text of the message is exactly as long as what is left of the
    buffer after the prefix, [vsnprintf] drops its last character, and the
    test [n > *size] of [VADoRawLog] still reports that it fitted: the line
    that is written is the prefix and the message without its last
    character, with neither the line feed nor the truncation notice. *)
Lemma RawLogVA_exact_fit kLogBufSize stack severity file line msg :
  let pre := prefix_text file line in
  Z.of_nat (length stack) = kLogBufSize → kLogBufSize < 2 ^ 31 →
  NUL ∉ pre → NUL ∉ msg → msg ≠ [] →
  Z.of_nat (length pre + length msg) = kLogBufSize →
  RawLogVA kLogBufSize false stack severity file line (Some msg)
  = Some ([SafeWriteToStderr (pre ++ take (length msg - 1) msg)]
          ++ match severity with kFatal => [abort] | _ => [] end).
Proof.
  intros pre Hstack HK Hpre Hmsg Hne Hfit.
  assert (Hm : (0 < length msg)%nat) by (destruct msg; [done|simpl; lia]).
  assert (H64 : 2 ^ 31 < 2 ^ 64) by reflexivity.
  unfold RawLogVA, DoRawLog, VADoRawLog, vsnprintf. simpl buf; simpl size.
  fold pre. clearbody pre.
  change (length [NUL]) with 1%nat in *.
  (* the prefix *)
  rewrite to_size_t_small by lia.
  destruct (Z.eqb_spec kLogBufSize 0); [lia|].
  rewrite take_ge by lia.
  rewrite <- (take_drop (length pre + 1) stack) at 1.
  rewrite (store_at_start _ _ (pre ++ [NUL]))
    by (rewrite length_take, length_app; change (length [NUL]) with 1%nat; lia).
  simpl.
  destruct (Z.ltb_spec (Z.of_nat (length pre)) 0); [lia|].
  destruct (Z.ltb_spec kLogBufSize (Z.of_nat (length pre))); [lia|].
  simpl.
  (* the message *)
  replace (kLogBufSize - Z.of_nat (length pre)) with (Z.of_nat (length msg)) by lia.
  rewrite to_size_t_small by lia.
  destruct (Z.eqb_spec (Z.of_nat (length msg)) 0); [lia|].
  replace (Z.to_nat (Z.of_nat (length msg) - 1)) with (length msg - 1)%nat by lia.
  replace (0 + Z.of_nat (length pre)) with (Z.of_nat (length pre)) by lia.
  rewrite <- (app_assoc pre [NUL]).
  rewrite (store_at_end pre _ (take (length msg - 1) msg ++ [NUL])).
  2:{ rewrite !length_app, length_take, length_drop.
      change (length [NUL]) with 1%nat. lia. }
  simpl.
  destruct (Z.ltb_spec (Z.of_nat (length msg)) 0); [lia|].
  rewrite Z.ltb_irrefl. simpl.
  (* the line feed finds no room *)
  rewrite Z.sub_diag. rewrite to_size_t_small by lia. simpl.
  rewrite app_assoc, strlen_app_nul.
  2:{ rewrite not_elem_of_app. split; [done|].
      intros Hin. apply Hmsg. eapply subseteq_take; eauto. }
  simpl. rewrite take_app_length. reflexivity.
Qed.

Lemma store_middle (pre old post bs : list ascii) :
  length old = length bs →
  store (pre ++ old ++ post) (Z.of_nat (length pre)) bs = Some (pre ++ bs ++ post).
Proof.
  intros Hlen. rewrite store_inside by (rewrite ?length_app; lia).
  rewrite Nat2Z.id, take_app_length. do 3 f_equal.
  rewrite drop_app_add, <- Hlen. apply drop_app_length.
Qed.

(** When the text of the message is longer than what is left of the buffer
    after the prefix, and more than [sizeof(kTruncated)] characters are
    left, the message is cut so that the notice fits: the line is the
    prefix, the first characters of the message and the notice. *)
Lemma RawLogVA_truncated kLogBufSize stack severity file line msg :
  let pre := prefix_text file line in
  let room := (Z.to_nat kLogBufSize - length pre)%nat in
  Z.of_nat (length stack) = kLogBufSize → kLogBufSize < 2 ^ 31 →
  NUL ∉ pre → NUL ∉ msg →
  (Z.to_nat sizeof_kTruncated < room)%nat → (room < length msg)%nat →
  RawLogVA kLogBufSize false stack severity file line (Some msg)
  = Some ([SafeWriteToStderr
             (pre ++ take (room - Z.to_nat sizeof_kTruncated) msg ++ kTruncated)]
          ++ match severity with kFatal => [abort] | _ => [] end).
Proof.
  intros pre room Hstack HK Hpre Hmsg Hroom Hlong.
  assert (H64 : 2 ^ 31 < 2 ^ 64) by reflexivity.
  assert (Hk : sizeof_kTruncated = 26) by reflexivity.
  assert (Hkl : length kTruncated = 25%nat) by reflexivity.
  assert (Hkn : NUL ∉ kTruncated).
  { apply (bool_decide_eq_true_1 _). reflexivity. }
  rewrite Hk in *. change (Z.to_nat 26) with 26%nat in *.
  unfold RawLogVA, DoRawLog, VADoRawLog, vsnprintf. simpl buf; simpl size.
  change sizeof_kTruncated with 26.
  fold pre. subst room. clearbody pre.
  set (notice := kTruncated) in *. clearbody notice.
  change (length [NUL]) with 1%nat in *.
  (* the prefix *)
  rewrite to_size_t_small by lia.
  destruct (Z.eqb_spec kLogBufSize 0); [lia|].
  rewrite take_ge by lia.
  rewrite <- (take_drop (length pre + 1) stack) at 1.
  rewrite (store_at_start _ _ (pre ++ [NUL]))
    by (rewrite length_take, length_app; change (length [NUL]) with 1%nat; lia).
  simpl.
  destruct (Z.ltb_spec (Z.of_nat (length pre)) 0); [lia|].
  destruct (Z.ltb_spec kLogBufSize (Z.of_nat (length pre))); [lia|].
  simpl.
  (* the message, cut by vsnprintf *)
  set (room := (Z.to_nat kLogBufSize - length pre)%nat) in *.
  replace (kLogBufSize - Z.of_nat (length pre)) with (Z.of_nat room) by lia.
  rewrite to_size_t_small by lia.
  destruct (Z.eqb_spec (Z.of_nat room) 0); [lia|].
  replace (Z.to_nat (Z.of_nat room - 1)) with (room - 1)%nat by lia.
  replace (0 + Z.of_nat (length pre)) with (Z.of_nat (length pre)) by lia.
  rewrite <- (app_assoc pre [NUL]).
  rewrite (store_at_end pre _ (take (room - 1) msg ++ [NUL])).
  2:{ rewrite !length_app, length_take, length_drop.
      change (length [NUL]) with 1%nat. lia. }
  simpl.
  destruct (Z.ltb_spec (Z.of_nat (length msg)) 0); [lia|].
  destruct (Z.ltb_spec (Z.of_nat room) (Z.of_nat (length msg))); [|lia].
  simpl.
  destruct (Z.ltb_spec 26 (Z.of_nat room)); [|lia].
  simpl.
  (* the notice, in the room that was kept for it *)
  replace (Z.of_nat room - (Z.of_nat room - 26)) with 26 by lia.
  rewrite to_size_t_small by lia. simpl Z.eqb. cbv iota.
  change (Z.to_nat (26 - 1)) with 25%nat.
  rewrite (take_ge notice) by (rewrite Hkl; lia).
  rewrite <- (take_drop (room - 26) (take (room - 1) msg)).
  rewrite take_take, Nat.min_l by lia.
  replace (Z.of_nat (length pre) + (Z.of_nat room - 26))
    with (Z.of_nat (length (pre ++ take (room - 26) msg)))
    by (rewrite length_app, length_take; lia).
  rewrite <- (app_assoc _ _ [NUL]), (app_assoc pre).
  rewrite <- (app_nil_r (drop (room - 26) (take (room - 1) msg) ++ [NUL])).
  rewrite (store_middle _ _ [] (notice ++ [NUL])).
  2:{ rewrite !length_app, length_drop, length_take, Hkl.
      change (length [NUL]) with 1%nat. lia. }
  simpl. rewrite Hkl.
  destruct (Z.ltb_spec (Z.of_nat 25) 0); [lia|].
  destruct (Z.ltb_spec 26 (Z.of_nat 25)); [lia|]. simpl.
  rewrite app_nil_r, (app_assoc _ notice), strlen_app_nul.
  2:{ rewrite !not_elem_of_app. repeat split; try done.
      intros Hin. apply Hmsg. eapply subseteq_take; eauto. }
  simpl. rewrite take_app_length. by rewrite <- app_assoc.
Qed.

End RawLoggingExactFit.

(** ** The line the raw logger writes, by the room the buffer leaves *)

Section RawLoggingLines.

Import RawLogging.

(** [vsnprintf] at the end of what has been written: [done] is the part of
    the array before the cursor, [rest] the part from the cursor on. *)
Lemma vsnprintf_split (done rest : list ascii) c text :
  buf c = Z.of_nat (length done) → size c = Z.of_nat (length rest) →
  (0 < length rest)%nat → size c < 2 ^ 64 →
  vsnprintf (done ++ rest) c (Some text)
  = Some (done ++ take (length rest - 1) text ++ [NUL]
            ++ drop (S (Nat.min (length rest - 1) (length text))) rest,
          Z.of_nat (length text)).
Proof.
  intros Hb Hs Hpos Hmax. unfold vsnprintf.
  rewrite to_size_t_small by lia.
  destruct (Z.eqb_spec (size c) 0); [lia|].
  replace (Z.to_nat (size c - 1)) with (length rest - 1)%nat by lia.
  rewrite store_inside.
  2: lia.
  2: { rewrite !length_app, length_take. change (length [NUL]) with 1%nat. lia. }
  rewrite Hb, Nat2Z.id, take_app_length. do 3 f_equal.
  rewrite <- app_assoc. do 2 f_equal.
  rewrite drop_app_add. f_equal.
  rewrite length_app, length_take. change (length [NUL]) with 1%nat. lia.
Qed.

Lemma DoRawLog_fits (done rest : list ascii) c text :
  buf c = Z.of_nat (length done) → size c = Z.of_nat (length rest) →
  (0 < length rest)%nat → size c < 2 ^ 64 →
  (length text <= length rest)%nat →
  DoRawLog (done ++ rest) c (Some text)
  = Some (done ++ take (length rest - 1) text ++ [NUL]
            ++ drop (S (Nat.min (length rest - 1) (length text))) rest,
          {| buf := buf c + Z.of_nat (length text);
             size := size c - Z.of_nat (length text) |}, true).
Proof.
  intros Hb Hs Hpos Hmax Hfit. unfold DoRawLog.
  rewrite vsnprintf_split by assumption.
  destruct (Z.ltb_spec (Z.of_nat (length text)) 0); [lia|].
  destruct (Z.ltb_spec (size c) (Z.of_nat (length text))); [lia|].
  reflexivity.
Qed.

Lemma DoRawLog_overflows (done rest : list ascii) c text :
  buf c = Z.of_nat (length done) → size c = Z.of_nat (length rest) →
  (0 < length rest)%nat → size c < 2 ^ 64 →
  (length rest < length text)%nat →
  DoRawLog (done ++ rest) c (Some text)
  = Some (done ++ take (length rest - 1) text ++ [NUL], c, false).
Proof.
  intros Hb Hs Hpos Hmax Hfit. unfold DoRawLog.
  rewrite vsnprintf_split by assumption.
  destruct (Z.ltb_spec (Z.of_nat (length text)) 0); [lia|].
  destruct (Z.ltb_spec (size c) (Z.of_nat (length text))); [|lia].
  simpl. rewrite drop_ge by lia. reflexivity.
Qed.

Lemma VADoRawLog_fits (done rest : list ascii) c text :
  buf c = Z.of_nat (length done) → size c = Z.of_nat (length rest) →
  (0 < length rest)%nat → size c < 2 ^ 64 →
  (length text <= length rest)%nat →
  VADoRawLog (done ++ rest) c (Some text)
  = Some (done ++ take (length rest - 1) text ++ [NUL]
            ++ drop (S (Nat.min (length rest - 1) (length text))) rest,
          {| buf := buf c + Z.of_nat (length text);
             size := size c - Z.of_nat (length text) |}, true).
Proof.
  intros Hb Hs Hpos Hmax Hfit. unfold VADoRawLog.
  rewrite vsnprintf_split by assumption.
  destruct (Z.ltb_spec (Z.of_nat (length text)) 0); [lia|].
  destruct (Z.ltb_spec (size c) (Z.of_nat (length text))); [lia|].
  reflexivity.
Qed.

Lemma VADoRawLog_overflows (done rest : list ascii) c text :
  buf c = Z.of_nat (length done) → size c = Z.of_nat (length rest) →
  (0 < length rest)%nat → size c < 2 ^ 64 →
  (length rest < length text)%nat →
  VADoRawLog (done ++ rest) c (Some text)
  = Some (done ++ take (length rest - 1) text ++ [NUL],
          (if sizeof_kTruncated <? size c
           then {| buf := buf c + (size c - sizeof_kTruncated);
                   size := size c - (size c - sizeof_kTruncated) |}
           else {| buf := buf c + 0; size := size c - 0 |}), false).
Proof.
  intros Hb Hs Hpos Hmax Hfit. unfold VADoRawLog.
  rewrite vsnprintf_split by assumption.
  destruct (Z.ltb_spec (Z.of_nat (length text)) 0); [lia|].
  destruct (Z.ltb_spec (size c) (Z.of_nat (length text))); [|lia].
  simpl. rewrite to_size_t_small by lia.
  rewrite drop_ge by lia.
  destruct (sizeof_kTruncated <? size c); reflexivity.
Qed.

(** What [strlen] and the write see of a buffer that holds [line] and a
    terminator. *)
Lemma line_written (line rest : list ascii) :
  NUL ∉ line →
  strlen (line ++ NUL :: rest) = Some (length line)
  ∧ take (length line) (line ++ NUL :: rest) = line.
Proof.
  intros Hl. split; [by apply strlen_app_nul|apply take_app_length].
Qed.

(** A message that leaves room for the line feed and the terminator is
    written whole: the line is the prefix, the message and a line feed. *)
Theorem RawLogVA_whole_line kLogBufSize android stack severity file line msg :
  let pre := prefix_text file line in
  Z.of_nat (length stack) = kLogBufSize → kLogBufSize < 2 ^ 31 →
  NUL ∉ pre → NUL ∉ msg →
  Z.of_nat (length pre + length msg) + 1 < kLogBufSize →
  RawLogVA kLogBufSize android stack severity file line (Some msg)
  = Some ((if android then [android_log_print (pre ++ msg ++ [LF])]
           else [SafeWriteToStderr (pre ++ msg ++ [LF])])
          ++ match severity with kFatal => [abort] | _ => [] end).
Proof.
  intros pre Hstack HK Hpre Hmsg Hroom.
  assert (H64 : 2 ^ 31 < 2 ^ 64) by reflexivity.
  unfold RawLogVA. fold pre. clearbody pre.
  (* the prefix *)
  pose proof (DoRawLog_fits [] stack {| buf := 0; size := kLogBufSize |} pre) as H1.
  simpl in H1. rewrite H1 by lia. clear H1.
  rewrite take_ge, Nat.min_r by lia.
  simpl mbind.
  (* the message *)
  set (rest1 := NUL :: drop (S (length pre)) stack).
  assert (Hr1 : length rest1 = (length stack - length pre)%nat).
  { subst rest1. simpl. rewrite length_drop. lia. }
  clearbody rest1.
  rewrite (VADoRawLog_fits pre rest1) by (simpl; lia).
  rewrite take_ge, Nat.min_r by lia.
  simpl mbind. cbv iota beta.
  (* the line feed *)
  set (rest2 := NUL :: drop (S (length msg)) rest1).
  assert (Hr2 : length rest2 = (length rest1 - length msg)%nat).
  { subst rest2. simpl. rewrite length_drop. lia. }
  clearbody rest2.
  rewrite (app_assoc pre msg).
  rewrite (DoRawLog_fits (pre ++ msg) rest2)
    by (rewrite ?length_app; simpl; lia).
  rewrite take_ge, Nat.min_r by (simpl; lia).
  simpl mbind.
  (* the line that is read back *)
  rewrite (cons_middle LF), (app_assoc (pre ++ msg)).
  destruct (line_written ((pre ++ msg) ++ [LF]) (drop 2 rest2)) as [Hs Ht].
  { rewrite !not_elem_of_app, list_elem_of_singleton. repeat split; done. }
  rewrite Hs. simpl mbind. rewrite Ht. by rewrite <- app_assoc.
Qed.

(** When the prefix and the message leave exactly one character, the
    terminator takes it: [vsnprintf] drops the line feed and the test
    [n > *size] of [DoRawLog] accepts the call.  The line is the prefix and
    the whole message, without a line feed. *)
Theorem RawLogVA_line_feed_dropped kLogBufSize android stack severity file line msg :
  let pre := prefix_text file line in
  Z.of_nat (length stack) = kLogBufSize → kLogBufSize < 2 ^ 31 →
  NUL ∉ pre → NUL ∉ msg →
  Z.of_nat (length pre + length msg) + 1 = kLogBufSize →
  RawLogVA kLogBufSize android stack severity file line (Some msg)
  = Some ((if android then [android_log_print (pre ++ msg)]
           else [SafeWriteToStderr (pre ++ msg)])
          ++ match severity with kFatal => [abort] | _ => [] end).
Proof.
  intros pre Hstack HK Hpre Hmsg Hroom.
  assert (H64 : 2 ^ 31 < 2 ^ 64) by reflexivity.
  unfold RawLogVA. fold pre. clearbody pre.
  (* the prefix *)
  pose proof (DoRawLog_fits [] stack {| buf := 0; size := kLogBufSize |} pre) as H1.
  simpl in H1. rewrite H1 by lia. clear H1.
  rewrite take_ge, Nat.min_r by lia.
  simpl mbind.
  (* the message *)
  set (rest1 := NUL :: drop (S (length pre)) stack).
  assert (Hr1 : length rest1 = (length stack - length pre)%nat).
  { subst rest1. simpl. rewrite length_drop. lia. }
  clearbody rest1.
  rewrite (VADoRawLog_fits pre rest1) by (simpl; lia).
  rewrite take_ge, Nat.min_r by lia.
  simpl mbind. cbv iota beta.
  (* the line feed: one character is left *)
  set (rest2 := NUL :: drop (S (length msg)) rest1).
  assert (Hr2 : length rest2 = 1%nat).
  { subst rest2. simpl. rewrite length_drop. lia. }
  clearbody rest2.
  rewrite (app_assoc pre msg).
  rewrite (DoRawLog_fits (pre ++ msg) rest2)
    by (rewrite ?length_app; simpl; lia).
  rewrite Hr2. simpl mbind.
  destruct (line_written (pre ++ msg) (drop 1 rest2)) as [Hs Ht].
  { rewrite not_elem_of_app. split; done. }
  rewrite Hs. simpl mbind. by rewrite Ht.
Qed.

(** When the message does not fit and at most [sizeof(kTruncated)]
    characters are left after the prefix, [VADoRawLog] keeps nothing of the
    message: the line is the prefix and as much of the notice as the room
    holds. *)
Theorem RawLogVA_no_room_for_notice kLogBufSize android stack severity file line msg :
  let pre := prefix_text file line in
  let room := (Z.to_nat kLogBufSize - length pre)%nat in
  Z.of_nat (length stack) = kLogBufSize → kLogBufSize < 2 ^ 31 →
  NUL ∉ pre →
  (0 < room)%nat → (room <= Z.to_nat sizeof_kTruncated)%nat →
  (room < length msg)%nat →
  RawLogVA kLogBufSize android stack severity file line (Some msg)
  = Some ((if android then [android_log_print (pre ++ take (room - 1) kTruncated)]
           else [SafeWriteToStderr (pre ++ take (room - 1) kTruncated)])
          ++ match severity with kFatal => [abort] | _ => [] end).
Proof.
  intros pre room Hstack HK Hpre Hpos Hroom Hlong.
  assert (H64 : 2 ^ 31 < 2 ^ 64) by reflexivity.
  assert (Hk : sizeof_kTruncated = 26) by reflexivity.
  assert (Hkl : length kTruncated = 25%nat) by reflexivity.
  assert (Hkn : NUL ∉ kTruncated).
  { apply (bool_decide_eq_true_1 _). reflexivity. }
  rewrite Hk in *. change (Z.to_nat 26) with 26%nat in *.
  unfold RawLogVA. fold pre. subst room. clearbody pre.
  set (notice := kTruncated) in *. clearbody notice.
  (* the prefix *)
  pose proof (DoRawLog_fits [] stack {| buf := 0; size := kLogBufSize |} pre) as H1.
  simpl in H1. rewrite H1 by lia. clear H1.
  rewrite take_ge, Nat.min_r by lia.
  simpl mbind.
  (* the message: too long, and no room for the notice *)
  set (rest1 := NUL :: drop (S (length pre)) stack).
  assert (Hr1 : length rest1 = (Z.to_nat kLogBufSize - length pre)%nat).
  { subst rest1. simpl. rewrite length_drop. lia. }
  clearbody rest1.
  rewrite (VADoRawLog_overflows pre rest1) by (simpl; lia).
  simpl size. simpl buf. rewrite Hk.
  destruct (Z.ltb_spec 26 (kLogBufSize - Z.of_nat (length pre))); [lia|].
  simpl mbind. cbv iota beta.
  (* the notice, over what was stored of the message *)
  set (rest2 := take (length rest1 - 1) msg ++ [NUL]).
  assert (Hr2 : length rest2 = length rest1).
  { subst rest2. rewrite length_app, length_take. simpl. lia. }
  clearbody rest2.
  assert (Hin : NUL ∉ pre ++ take (length rest2 - 1) notice).
  { rewrite not_elem_of_app. split; [done|].
    intros Hin. apply Hkn. eapply subseteq_take; eauto. }
  destruct (decide (length notice <= length rest2)%nat) as [Hfit|Hcut].
  - rewrite (DoRawLog_fits pre rest2) by (simpl; lia).
    simpl mbind. rewrite (app_assoc pre).
    destruct (line_written (pre ++ take (length rest2 - 1) notice)
                (drop (S ((length rest2 - 1) `min` length notice)) rest2))
      as [Hs Ht]; [done|].
    change ([NUL] ++ ?l) with (NUL :: l).
    rewrite Hs. simpl mbind. rewrite Ht, Hr2, Hr1. reflexivity.
  - rewrite (DoRawLog_overflows pre rest2) by (simpl; lia).
    simpl mbind. rewrite (app_assoc pre).
    destruct (line_written (pre ++ take (length rest2 - 1) notice) [])
      as [Hs Ht]; [done|].
    rewrite Hs. simpl mbind. rewrite Ht, Hr2, Hr1. reflexivity.
Qed.

(** When the location prefix does not fit in the buffer, [DoRawLog]
    reports it and leaves the cursor at the start: the message is stored
    over the prefix, and the line is the message alone. *)
Theorem RawLogVA_long_prefix kLogBufSize android stack severity file line msg :
  let pre := prefix_text file line in
  Z.of_nat (length stack) = kLogBufSize → kLogBufSize < 2 ^ 31 →
  NUL ∉ msg →
  kLogBufSize < Z.of_nat (length pre) →
  Z.of_nat (length msg) + 1 < kLogBufSize →
  RawLogVA kLogBufSize android stack severity file line (Some msg)
  = Some ((if android then [android_log_print (msg ++ [LF])]
           else [SafeWriteToStderr (msg ++ [LF])])
          ++ match severity with kFatal => [abort] | _ => [] end).
Proof.
  intros pre Hstack HK Hmsg Hlong Hroom.
  assert (H64 : 2 ^ 31 < 2 ^ 64) by reflexivity.
  unfold RawLogVA. fold pre. clearbody pre.
  (* the prefix: rejected, the cursor stays *)
  pose proof (DoRawLog_overflows [] stack {| buf := 0; size := kLogBufSize |} pre)
    as H1.
  simpl in H1. rewrite H1 by lia. clear H1.
  simpl mbind.
  (* the message, from the start of the buffer *)
  set (rest1 := take (length stack - 1) pre ++ [NUL]).
  assert (Hr1 : length rest1 = length stack).
  { subst rest1. rewrite length_app, length_take. simpl. lia. }
  clearbody rest1.
  pose proof (VADoRawLog_fits [] rest1 {| buf := 0; size := kLogBufSize |} msg)
    as H2.
  simpl in H2. rewrite H2 by lia. clear H2.
  rewrite take_ge, Nat.min_r by lia.
  simpl mbind. cbv iota beta.
  (* the line feed *)
  set (rest2 := NUL :: drop (S (length msg)) rest1).
  assert (Hr2 : length rest2 = (length rest1 - length msg)%nat).
  { subst rest2. simpl. rewrite length_drop. lia. }
  clearbody rest2.
  rewrite (DoRawLog_fits msg rest2) by (simpl; lia).
  rewrite take_ge, Nat.min_r by (simpl; lia).
  simpl mbind.
  rewrite (cons_middle LF), (app_assoc msg).
  destruct (line_written (msg ++ [LF]) (drop 2 rest2)) as [Hs Ht].
  { rewrite !not_elem_of_app, list_elem_of_singleton. repeat split; done. }
  rewrite Hs. simpl mbind. by rewrite Ht.
Qed.

End RawLoggingLines.

(** ** The verbosity level *)

Section VLogFacts.

Import RawLogging.

Variable SimpleAtoi : string -> option Z.

(** The first call of [VLogIsOn] that returns fixes the level for good:
    it is [INT_MIN] when [SAPI_VLOG_LEVEL] is not set, so that no level
    above [INT_MIN] is on, and the non-negative number the variable denotes
    otherwise; every later call compares with that level, whatever the
    environment has become. *)
Theorem VLogIsOn_level_fixed_by_first_call env_var verbose_level on static_level :
  VLogIsOn SimpleAtoi env_var None verbose_level = Some (on, static_level) →
  ∃ level,
    static_level = Some level
    ∧ on = (verbose_level <=? level)
    ∧ match env_var with
      | None => level = INT_MIN
      | Some text => SimpleAtoi text = Some level ∧ 0 <= level
      end
    ∧ ∀ env_var' verbose_level',
        VLogIsOn SimpleAtoi env_var' static_level verbose_level'
        = Some (verbose_level' <=? level, static_level).
Proof.
  unfold VLogIsOn, external_verbose_level_init. intros H.
  destruct env_var as [text|].
  - destruct (SimpleAtoi text) as [level|] eqn:Hatoi; [|discriminate H].
    destruct (Z.leb_spec 0 level); [|discriminate H].
    simpl in H. injection H as <- <-. exists level. by repeat split.
  - simpl in H. injection H as <- <-. exists INT_MIN. by repeat split.
Qed.

End VLogFacts.



(** ** Moving a [Comms] object *)

Section CommsFacts.

Import CommsModel.

(** The five member-wise swaps of [Swap] exchange the two objects. *)
Lemma swap_members x y :
  swap_listening_comms
    (swap_state (swap_raw_comms (swap_abstract_uds (swap_name (x, y)))))
  = (y, x).
Proof. destruct x, y. reflexivity. Qed.

Lemma Swap_distinct w this other x y :
  this ≠ other → objs w !! this = Some x → objs w !! other = Some y →
  Swap this other w
  = {| objs := <[other := x]> (<[this := y]> (objs w)); open_fds := open_fds w |}.
Proof.
  intros Hne Hx Hy. unfold Swap.
  destruct (decide (this = other)); [done|].
  rewrite Hx, Hy, swap_members. reflexivity.
Qed.

Lemma Swap_self w this : Swap this this w = w.
Proof. unfold Swap. by destruct (decide (this = this)). Qed.

(** Swapping twice gives the world back. *)
Lemma Swap_involutive w this other x y :
  objs w !! this = Some x → objs w !! other = Some y →
  Swap this other (Swap this other w) = w.
Proof.
  intros Hx Hy. destruct (decide (this = other)) as [->|Hne].
  { by rewrite !Swap_self. }
  rewrite (Swap_distinct w this other x y) by done.
  rewrite (Swap_distinct _ this other y x).
  2: done.
  2: { simpl. rewrite lookup_insert_ne by done. apply lookup_insert_eq. }
  2: { simpl. apply lookup_insert_eq. }
  destruct w as [o f]; simpl in *. f_equal.
  apply map_eq. intros i.
  destruct (decide (i = other)) as [->|]; [by rewrite lookup_insert_eq|].
  rewrite lookup_insert_ne by done.
  destruct (decide (i = this)) as [->|]; [by rewrite lookup_insert_eq|].
  by rewrite !lookup_insert_ne.
Qed.

Lemma Terminate_lookup w this c :
  objs w !! this = Some c →
  ∃ c', objs (Terminate this w) !! this = Some c'
        ∧ state_ c' = kTerminated ∧ owned_fds c' = ∅
        ∧ raw_comms_ c' = RawCommsPtr None
        ∧ open_fds (Terminate this w) = open_fds w ∖ owned_fds c
        ∧ ∀ i, i ≠ this → objs (Terminate this w) !! i = objs w !! i.
Proof.
  intros Hc. unfold Terminate. rewrite Hc. simpl.
  eexists. split; [apply lookup_insert_eq|].
  repeat split.
  intros i Hi. by rewrite lookup_insert_ne.
Qed.

(** C9.  Move-assignment [a = std::move(b)] of two distinct objects: [a]
    then holds exactly what [b] held (name, transport, listening socket and
    state), and the descriptors of that channel are still open; [b] is left
    terminated, owns no descriptor and cannot transfer anything any more;
    what [a] held before is closed; no other object changes.
    Self-move-assignment changes nothing. *)
Theorem Comms_move_assign :
  (∀ (w : world) (a b : nat) (ca cb : Comms),
     a ≠ b →
     objs w !! a = Some ca → objs w !! b = Some cb →
     owned_fds cb ⊆ open_fds w →
     owned_fds ca ## owned_fds cb →
     let w' := move_assign a b w in
     objs w' !! a = Some cb
     ∧ owned_fds cb ⊆ open_fds w'
     ∧ (∃ b', objs w' !! b = Some b'
              ∧ IsTerminated b' = true ∧ IsConnected b' = false
              ∧ owned_fds b' = ∅
              ∧ can_transfer b' (open_fds w') = false)
     ∧ open_fds w' = open_fds w ∖ owned_fds ca
     ∧ (∀ i, i ≠ a → i ≠ b → objs w' !! i = objs w !! i))
  ∧ (∀ (w : world) (a : nat), move_assign a a w = w).
Proof.
  split.
  - intros w a b ca cb Hne Ha Hb Hopen Hdisj w'. subst w'.
    unfold move_assign. destruct (decide (a ≠ b)); [|done].
    rewrite (Swap_distinct w a b ca cb) by done.
    set (w1 := {| objs := <[b:=ca]> (<[a:=cb]> (objs w)); open_fds := open_fds w |}).
    assert (Hb1 : objs w1 !! b = Some ca) by apply lookup_insert_eq.
    destruct (Terminate_lookup w1 b ca Hb1)
      as (b' & Hb' & Hst & Hown & Hraw & Hfds & Hother).
    repeat split.
    + rewrite Hother by done. simpl.
      by rewrite lookup_insert_ne, lookup_insert_eq.
    + rewrite Hfds. simpl. intros fd Hfd.
      apply elem_of_difference. split; [by apply Hopen|].
      intros Hca. by apply (Hdisj fd).
    + exists b'. split; [done|].
      unfold can_transfer, IsTerminated, IsConnected. rewrite Hst, Hraw.
      repeat split; done.
    + by rewrite Hfds.
    + intros i Hia Hib. rewrite Hother by done. simpl.
      by rewrite !lookup_insert_ne.
  - intros w a. unfold move_assign. destruct (decide (a ≠ a)); done.
Qed.

End CommsFacts.

(** ** Move construction and the typed helpers of [Comms] *)

Section CommsConstruction.

Import CommsModel.

Lemma owned_fds_default : owned_fds default_members = ∅.
Proof. unfold owned_fds. simpl. apply (left_id_L ∅ (∪)). Qed.

(** Move construction [Comms a(std::move(b))]: the new object holds what
    [b] held, [b] is left terminated and owns nothing, no descriptor is
    closed, and no other object changes. *)
Theorem Comms_move_construct (w : world) (a b : nat) (cb : Comms) :
  objs w !! a = None → objs w !! b = Some cb →
  let w' := move_construct a b w in
  objs w' !! a = Some cb
  ∧ open_fds w' = open_fds w
  ∧ (∃ b', objs w' !! b = Some b'
           ∧ IsTerminated b' = true ∧ IsConnected b' = false
           ∧ owned_fds b' = ∅
           ∧ can_transfer b' (open_fds w') = false)
  ∧ (∀ i, i ≠ a → i ≠ b → objs w' !! i = objs w !! i).
Proof.
  intros Ha Hb w'. subst w'.
  assert (Hne : a ≠ b) by congruence.
  unfold move_construct, move_assign. destruct (decide (a ≠ b)); [|done].
  set (w0 := {| objs := <[a:=default_members]> (objs w); open_fds := open_fds w |}).
  rewrite (Swap_distinct w0 a b default_members cb).
  2: done.
  2: { simpl. apply lookup_insert_eq. }
  2: { simpl. by rewrite lookup_insert_ne. }
  set (w1 := {| objs := <[b:=default_members]> (<[a:=cb]> (objs w0));
                open_fds := open_fds w0 |}).
  assert (Hb1 : objs w1 !! b = Some default_members) by apply lookup_insert_eq.
  destruct (Terminate_lookup w1 b default_members Hb1)
    as (b' & Hb' & Hst & Hown & Hraw & Hfds & Hother).
  repeat split.
  - rewrite Hother by done. simpl.
    by rewrite lookup_insert_ne, lookup_insert_eq.
  - rewrite Hfds, owned_fds_default. simpl. apply difference_empty_L.
  - exists b'. split; [done|].
    unfold can_transfer, IsTerminated, IsConnected. rewrite Hst, Hraw.
    repeat split; done.
  - intros i Hia Hib. rewrite Hother by done. simpl.
    by rewrite !lookup_insert_ne.
Qed.

(** The typed helpers pair up: a receiver asks for the tag and the length
    its sender passes, and for the tag of no other sender.  The default
    tags are pairwise distinct and lie in the reserved range, from
    [0x80000000] on, within 32 bits. *)
Theorem typed_helpers_pair_up :
  (∀ s r s' r',
     (s, r) ∈ typed_helpers → (s', r') ∈ typed_helpers →
     is_send s = true ∧ is_send r = false
     ∧ tag_of r = tag_of s ∧ length_of r = length_of s
     ∧ (tag_of r' = tag_of s → (s', r') = (s, r)))
  ∧ NoDup default_tags
  ∧ Forall (λ tag, 0x80000000 <= tag < 2 ^ 32) default_tags.
Proof.
  split; [|split].
  - intros s r s' r' H1 H2.
    unfold typed_helpers in *.
    repeat (apply elem_of_cons in H1 as [H1|H1]; [injection H1 as -> ->|]);
      [..|by apply elem_of_nil in H1];
      (repeat split; try reflexivity);
      (repeat (apply elem_of_cons in H2 as [H2|H2]; [injection H2 as -> ->|]);
         [..|by apply elem_of_nil in H2]);
      intros Htag; first [reflexivity | discriminate Htag].
  - apply (bool_decide_eq_true_1 _). vm_compute. reflexivity.
  - apply (bool_decide_eq_true_1 _). vm_compute. reflexivity.
Qed.

End CommsConstruction.


(** ** The network proxy server *)

Section NetworkProxyFacts.

Import NetworkProxy.

(** The test of the received bytes, spelled out. *)
Lemma supported_spec cfg addr :
  supported cfg addr = true ↔
  (Z.of_nat (length addr) = sizeof_sockaddr_in
   ∧ sa_family (big_endian cfg) addr = AF_INET)
  ∨ (Z.of_nat (length addr) = sizeof_sockaddr_in6
     ∧ sa_family (big_endian cfg) addr = AF_INET6).
Proof.
  unfold supported. rewrite orb_true_iff.
  destruct (Z.eqb_spec (Z.of_nat (length addr)) sizeof_sockaddr_in);
    destruct (Z.eqb_spec (Z.of_nat (length addr)) sizeof_sockaddr_in6);
    rewrite ?Z.eqb_eq; intuition congruence.
Qed.

(** C7.  A request whose bytes are neither a [sockaddr_in] of family
    [AF_INET] nor a [sockaddr_in6] of family [AF_INET6], each of its exact
    size, is answered with [EINVAL] and nothing else happens: no socket is
    created, no connection is tried, no violation is recorded or reported.
    (The server only turns fatal when the answer itself cannot be sent.) *)
Theorem unsupported_request_gets_EINVAL cfg a s addr :
  recv_bytes a = Some addr →
  ¬ (Z.of_nat (length addr) = sizeof_sockaddr_in
     ∧ sa_family (big_endian cfg) addr = AF_INET) →
  ¬ (Z.of_nat (length addr) = sizeof_sockaddr_in6
     ∧ sa_family (big_endian cfg) addr = AF_INET6) →
  let s' := (ProcessConnectRequest cfg a s).1 in
  let evs := (ProcessConnectRequest cfg a s).2 in
  evs = [RecvBytes (Some addr); SendInt32 EINVAL (send_int32_ok a)]
  ∧ filter (λ e, is_connection_attempt e = true) evs = []
  ∧ filter (λ e, is_violation_report e = true) evs = []
  ∧ violation_occurred_ s' = violation_occurred_ s
  ∧ violation_msg_ s' = violation_msg_ s
  ∧ fatal_error_ s' = fatal_error_ s || negb (send_int32_ok a).
Proof.
  intros Hrecv H4 H6.
  assert (Hsup : supported cfg addr = false).
  { destruct (supported cfg addr) eqn:E; [|done].
    apply supported_spec in E. tauto. }
  unfold ProcessConnectRequest. rewrite Hrecv, Hsup. simpl.
  destruct (send_int32_ok a); simpl; repeat split; auto;
    destruct (fatal_error_ s); reflexivity.
Qed.

(** C8.  A well-formed request for an address outside the allowlist: the
    server records the violation (the flag, the message, the callback) and
    sends nothing back, neither an errno value nor a descriptor; the loop
    of [Run] is then left at once, with every later request unprocessed. *)
Theorem violation_sends_no_reply cfg a rest s addr :
  fatal_error_ s = false → violation_occurred_ s = false →
  recv_bytes a = Some addr →
  (Z.of_nat (length addr) = sizeof_sockaddr_in
   ∧ sa_family (big_endian cfg) addr = AF_INET)
  ∨ (Z.of_nat (length addr) = sizeof_sockaddr_in6
     ∧ sa_family (big_endian cfg) addr = AF_INET6) →
  IsHostAllowed cfg addr = false →
  let r := Run cfg (a :: rest) s in
  trace r = [RecvBytes (Some addr); notify_violation_fn; LogShutdown]
  ∧ filter (λ e, is_reply e = true) (trace r) = []
  ∧ violation_occurred_ (final r) = true
  ∧ violation_msg_ (final r)
    = match AddrToString cfg addr with inl text => text | inr m => m end
  ∧ fatal_error_ (final r) = false
  ∧ returned r = true
  ∧ unused r = rest.
Proof.
  intros Hf Hv Hrecv Hsup Hallow. apply supported_spec in Hsup. simpl.
  rewrite Hf, Hv. simpl.
  unfold ProcessConnectRequest. rewrite Hrecv, Hsup, Hallow. simpl.
  destruct rest; simpl; rewrite Hf; simpl; repeat split; reflexivity.
Qed.

(** A request the allowlist accepts: the server creates a socket of the
    family of the address and connects it.  When both calls succeed it sends
    [0] and then the connected descriptor; when one of them fails it sends
    the errno of that call and no descriptor.  Its own copy of the socket is
    closed in every case. *)
Theorem allowed_request_is_connected cfg a s addr :
  fatal_error_ s = false →
  recv_bytes a = Some addr →
  supported cfg addr = true →
  IsHostAllowed cfg addr = true →
  send_int32_ok a = true →
  let evs := (ProcessConnectRequest cfg a s).2 in
  let family := sa_family (big_endian cfg) addr in
  let fd := socket_ret a in
  (fd < 0 →
   evs = [RecvBytes (Some addr); socket_call family fd;
          SendInt32 (socket_errno a) true])
  ∧ (0 <= fd → connect_ret a < 0 →
     evs = [RecvBytes (Some addr); socket_call family fd;
            connect_call fd addr (connect_ret a);
            SendInt32 (connect_errno a) true; close_call fd])
  ∧ (0 <= fd → 0 <= connect_ret a →
     evs = [RecvBytes (Some addr); socket_call family fd;
            connect_call fd addr (connect_ret a);
            SendInt32 0 true; SendFD fd (send_fd_ok a); close_call fd]
     ∧ fatal_error_ (ProcessConnectRequest cfg a s).1 = negb (send_fd_ok a)).
Proof.
  intros Hf Hrecv Hsup Hallow Hsend. simpl.
  unfold ProcessConnectRequest. rewrite Hrecv, Hsup, Hallow. simpl.
  unfold SendError, NotifySuccess. rewrite Hsend.
  repeat split.
  - intros Hfd. by destruct (Z.ltb_spec (socket_ret a) 0); [|lia].
  - intros Hfd Hconn.
    destruct (Z.ltb_spec (socket_ret a) 0); [lia|].
    by destruct (Z.ltb_spec (connect_ret a) 0); [|lia].
  - destruct (Z.ltb_spec (socket_ret a) 0); [lia|].
    destruct (Z.ltb_spec (connect_ret a) 0); [lia|].
    by rewrite Hf.
  - destruct (Z.ltb_spec (socket_ret a) 0); [lia|].
    destruct (Z.ltb_spec (connect_ret a) 0); [lia|].
    rewrite Hf. simpl. destruct (send_fd_ok a); simpl; [done|reflexivity].
Qed.

(** A failure of the channel ends the loop: when [RecvBytes] fails the
    server turns fatal, sends nothing, and [Run] returns with every later
    request unprocessed. *)
Theorem Run_stops_on_fatal_error cfg a rest s :
  fatal_error_ s = false → violation_occurred_ s = false →
  recv_bytes a = None →
  Run cfg (a :: rest) s
  = {| final := set_fatal s; trace := [RecvBytes None; LogShutdown];
       unused := rest; returned := true |}.
Proof.
  intros Hf Hv Hrecv. simpl. rewrite Hf, Hv. simpl.
  unfold ProcessConnectRequest. rewrite Hrecv.
  by destruct rest.
Qed.

End NetworkProxyFacts.

(** ** The network proxy server over a whole run *)

Section NetworkProxyRun.

Import NetworkProxy.

(** What a socket, a connection or a descriptor in the trace of a request
    says about the request. *)
Lemma request_reaches_allowed_host cfg a s e :
  e ∈ (ProcessConnectRequest cfg a s).2 →
  is_connection_attempt e = true ∨ is_descriptor e = true →
  ∃ addr, recv_bytes a = Some addr
    ∧ supported cfg addr = true ∧ IsHostAllowed cfg addr = true
    ∧ match e with
      | socket_call family ret =>
          family = sa_family (big_endian cfg) addr ∧ ret = socket_ret a
      | connect_call fd to ret =>
          fd = socket_ret a ∧ to = addr ∧ ret = connect_ret a ∧ 0 <= fd
      | SendFD fd _ =>
          fd = socket_ret a ∧ 0 <= fd ∧ 0 <= connect_ret a
          ∧ send_int32_ok a = true
      | _ => True
      end.
Proof.
  unfold ProcessConnectRequest, SendError, NotifySuccess, NotifyViolation.
  destruct (recv_bytes a) as [addr|] eqn:Hrecv.
  2: { intros He%list_elem_of_singleton [Hk|Hk]; subst e; discriminate Hk. }
  destruct (supported cfg addr) eqn:Hsup; simpl.
  2: { intros He Hk.
       repeat (apply elem_of_cons in He as [->|He]);
         [..|by apply elem_of_nil in He]; destruct Hk as [Hk|Hk]; discriminate Hk. }
  destruct (IsHostAllowed cfg addr) eqn:Hallow; simpl.
  2: { intros He Hk.
       repeat (apply elem_of_cons in He as [->|He]);
         [..|by apply elem_of_nil in He]; destruct Hk as [Hk|Hk]; discriminate Hk. }
  intros He Hk. exists addr. split; [done|]. split; [done|]. split; [done|].
  destruct (Z.ltb_spec (socket_ret a) 0) as [Hsock|Hsock].
  { repeat (apply elem_of_cons in He as [->|He]);
      [..|by apply elem_of_nil in He];
      first [done | destruct Hk as [Hk|Hk]; discriminate Hk]. }
  destruct (Z.ltb_spec (connect_ret a) 0) as [Hconn|Hconn].
  { repeat (apply elem_of_cons in He as [->|He]);
      [..|by apply elem_of_nil in He];
      first [done | destruct Hk as [Hk|Hk]; discriminate Hk]. }
  destruct (send_int32_ok a) eqn:Hsend, (fatal_error_ s); simpl in He;
    repeat (apply elem_of_cons in He as [->|He]);
    try (by apply elem_of_nil in He);
    first [done | destruct Hk as [Hk|Hk]; discriminate Hk].
Qed.

(** Over a whole run, the server creates a socket, connects or hands over
    a descriptor only for a request whose address is supported and on the
    allowlist: the socket is of the family of that address, the connection
    goes to that address, and the descriptor is that socket, sent after the
    connection and the status [0] succeeded. *)
Theorem Run_reaches_only_allowed_hosts cfg script s e :
  e ∈ trace (Run cfg script s) →
  is_connection_attempt e = true ∨ is_descriptor e = true →
  ∃ a addr, a ∈ script ∧ recv_bytes a = Some addr
    ∧ supported cfg addr = true ∧ IsHostAllowed cfg addr = true
    ∧ match e with
      | socket_call family ret =>
          family = sa_family (big_endian cfg) addr ∧ ret = socket_ret a
      | connect_call fd to ret =>
          fd = socket_ret a ∧ to = addr ∧ ret = connect_ret a ∧ 0 <= fd
      | SendFD fd _ =>
          fd = socket_ret a ∧ 0 <= fd ∧ 0 <= connect_ret a
          ∧ send_int32_ok a = true
      | _ => True
      end.
Proof.
  revert s. induction script as [|a rest IH]; intros s He Hk; simpl in He.
  - destruct (negb (fatal_error_ s) && negb (violation_occurred_ s));
      simpl in He.
    + by apply elem_of_nil in He.
    + apply list_elem_of_singleton in He as ->.
      destruct Hk as [Hk|Hk]; discriminate Hk.
  - destruct (negb (fatal_error_ s) && negb (violation_occurred_ s)).
    + destruct (ProcessConnectRequest cfg a s) as [s' evs] eqn:Hreq.
      simpl in He. apply elem_of_app in He as [He|He].
      * destruct (request_reaches_allowed_host cfg a s e) as (addr & H);
          [by rewrite Hreq|done|].
        exists a, addr. split; [apply list_elem_of_here|done].
      * destruct (IH s' He Hk) as (a' & addr & Ha' & H).
        exists a', addr. split; [by apply list_elem_of_further|done].
    + simpl in He. apply list_elem_of_singleton in He as ->.
      destruct Hk as [Hk|Hk]; discriminate Hk.
Qed.

Lemma sockets_left_app open evs evs' :
  sockets_left open (evs ++ evs') = sockets_left (sockets_left open evs) evs'.
Proof.
  revert open. induction evs as [|e evs IH]; intros open; [done|].
  destruct e; simpl; apply IH.
Qed.

Lemma request_closes_its_socket cfg a s open :
  sockets_left open (ProcessConnectRequest cfg a s).2 = open.
Proof.
  unfold ProcessConnectRequest, SendError, NotifySuccess, NotifyViolation.
  destruct (recv_bytes a) as [addr|]; [|done].
  destruct (supported cfg addr); [|done].
  destruct (IsHostAllowed cfg addr); [|done].
  simpl.
  destruct (Z.ltb_spec (socket_ret a) 0) as [Hsock|Hsock]; simpl.
  { by destruct (Z.leb_spec 0 (socket_ret a)); [lia|]. }
  destruct (Z.ltb_spec (connect_ret a) 0) as [Hconn|Hconn]; simpl.
  { destruct (Z.leb_spec 0 (socket_ret a)); [|lia].
    simpl. by rewrite Z.eqb_refl. }
  destruct (send_int32_ok a), (fatal_error_ s); simpl;
    (destruct (Z.leb_spec 0 (socket_ret a)); [|lia]);
    simpl; by rewrite Z.eqb_refl.
Qed.

(** The server leaks no socket: whatever the requests and however the
    calls turn out, every socket a run creates is closed again by the end
    of the request that created it, also when the connection or one of the
    sends fails. *)
Theorem Run_closes_its_sockets cfg script s open :
  sockets_left open (trace (Run cfg script s)) = open.
Proof.
  revert s. induction script as [|a rest IH]; intros s; simpl.
  - by destruct (negb (fatal_error_ s) && negb (violation_occurred_ s)).
  - destruct (negb (fatal_error_ s) && negb (violation_occurred_ s)); [|done].
    pose proof (request_closes_its_socket cfg a s open) as Hreq.
    destruct (ProcessConnectRequest cfg a s) as [s' evs].
    simpl in *. by rewrite sockets_left_app, Hreq.
Qed.

Lemma request_reports_violation cfg a s :
  violation_occurred_ s = false →
  length (filter (λ e, is_violation_report e = true)
            (ProcessConnectRequest cfg a s).2)
  = (if violation_occurred_ (ProcessConnectRequest cfg a s).1 then 1 else 0)%nat.
Proof.
  intros Hv.
  unfold ProcessConnectRequest, SendError, NotifySuccess, NotifyViolation.
  destruct (recv_bytes a) as [addr|].
  2: { simpl. by rewrite Hv. }
  destruct (supported cfg addr); simpl.
  2: { destruct (send_int32_ok a); simpl; by rewrite Hv. }
  destruct (IsHostAllowed cfg addr); simpl; [|done].
  destruct (socket_ret a <? 0); simpl.
  { destruct (send_int32_ok a); simpl; by rewrite Hv. }
  destruct (connect_ret a <? 0); simpl.
  { destruct (send_int32_ok a); simpl; by rewrite Hv. }
  destruct (send_int32_ok a), (fatal_error_ s) eqn:Hf, (send_fd_ok a); simpl;
    rewrite ?Hf; simpl; by rewrite Hv.
Qed.

(** [Run] returns exactly when the server has turned fatal or has seen a
    violation, and it calls the violation callback at most once: once when
    the run ends on a violation it found, never otherwise. *)
Theorem Run_reports_one_violation cfg script s :
  let r := Run cfg script s in
  returned r = fatal_error_ (final r) || violation_occurred_ (final r)
  ∧ length (filter (λ e, is_violation_report e = true) (trace r))
    = (if violation_occurred_ s then 0
       else if violation_occurred_ (final r) then 1 else 0)%nat.
Proof.
  revert s. induction script as [|a rest IH]; intros s; simpl.
  - destruct (fatal_error_ s) eqn:Hf, (violation_occurred_ s) eqn:Hv; simpl;
      rewrite ?Hf, ?Hv; done.
  - destruct (fatal_error_ s) eqn:Hf, (violation_occurred_ s) eqn:Hv; simpl;
      rewrite ?Hf, ?Hv; try done.
    pose proof (request_reports_violation cfg a s Hv) as Hreq.
    destruct (ProcessConnectRequest cfg a s) as [s' evs].
    simpl in *. destruct (IH s') as [Hret Hcount]. split; [done|].
    rewrite filter_app, length_app, Hreq, Hcount.
    destruct (violation_occurred_ s') eqn:Hv'; [|done].
    (* the run ends at once *)
    destruct rest; simpl; rewrite Hv'; rewrite andb_false_r; simpl;
      by rewrite Hv'.
Qed.

(** Every request that is read gets exactly one status value, an errno or
    [0], except a request for an address outside the allowlist, which gets
    none; a request that cannot be read gets none either. *)
Theorem one_status_per_request cfg a s :
  length (filter (λ e, is_status e = true) (ProcessConnectRequest cfg a s).2)
  = match recv_bytes a with
    | None => 0%nat
    | Some addr =>
        if supported cfg addr && negb (IsHostAllowed cfg addr) then 0%nat
        else 1%nat
    end.
Proof.
  unfold ProcessConnectRequest, SendError, NotifySuccess, NotifyViolation.
  destruct (recv_bytes a) as [addr|]; [|done].
  destruct (supported cfg addr); simpl.
  2: { by destruct (send_int32_ok a). }
  destruct (IsHostAllowed cfg addr); simpl; [|done].
  destruct (socket_ret a <? 0); simpl.
  { by destruct (send_int32_ok a). }
  destruct (connect_ret a <? 0); simpl.
  { by destruct (send_int32_ok a). }
  by destruct (send_int32_ok a), (fatal_error_ s), (send_fd_ok a).
Qed.

End NetworkProxyRun.


(** ** The wall-time limit of the monitors *)

Section MonitorFacts.

Import Monitor.

Lemma ToUnixMillis_int64 t : int64_min <= ToUnixMillis t <= int64_max.
Proof. unfold ToUnixMillis, int64_min, int64_max. lia. Qed.

(** C6, as amended.  On both monitors the setter stores the deadline once,
    as one 64-bit value in Unix milliseconds, [0] when the limit is zero;
    only the unotify monitor wakes the monitor thread, and only when it
    arms the timer. *)
Theorem SetWallTimeLimit_stores_and_pokes v now limit m :
  let m' := (SetWallTimeLimit v now limit m).1 in
  let evs := (SetWallTimeLimit v now limit m).2 in
  deadline_millis_ m' = deadline_for now limit
  ∧ int64_min <= deadline_for now limit <= int64_max
  ∧ stored evs = [deadline_for now limit]
  ∧ poked evs
    = match v with
      | PtraceMonitor => false
      | UnotifyMonitor => negb (limit =? ZeroDuration)
      end.
Proof.
  assert (Hr : int64_min <= deadline_for now limit <= int64_max).
  { unfold deadline_for. destruct (limit =? ZeroDuration);
      [unfold int64_min, int64_max; lia | apply ToUnixMillis_int64]. }
  unfold SetWallTimeLimit, deadline_for in *.
  destruct v, (limit =? ZeroDuration); simpl; repeat split; try apply Hr;
    reflexivity.
Qed.

(** C6, as stated, fails: the ptrace monitor arms a five second limit
    without waking the monitor thread, and the unotify monitor disarms the
    timer without waking it. *)
Lemma SetWallTimeLimit_without_poke :
  poked (SetWallTimeLimit PtraceMonitor 1000000000 (Seconds 5)
           {| deadline_millis_ := 0 |}).2 = false
  ∧ (SetWallTimeLimit PtraceMonitor 1000000000 (Seconds 5)
       {| deadline_millis_ := 0 |}).2 = [store_deadline 6000]
  ∧ poked (SetWallTimeLimit UnotifyMonitor 1000000000 ZeroDuration
             {| deadline_millis_ := 6000 |}).2 = false.
Proof. repeat split; reflexivity. Qed.

End MonitorFacts.

(** ** Requests to a monitor, in sequence *)

Section MonitorRequests.

Import Monitor.

Lemma poked_app evs evs' : poked (evs ++ evs') = poked evs || poked evs'.
Proof. unfold poked. apply existsb_app. Qed.

(** However the calls of [Kill], [DumpStackTrace] and [SetWallTimeLimit]
    are interleaved, on either monitor: the deadline is the one the last
    [SetWallTimeLimit] asked for, a kill or stack dump request stays
    pending once it was made (no call sets a flag again, and the setter
    touches no flag), and a run of calls with a request among them has
    woken the monitor thread. *)
Theorem requests_compose v rs st :
  let st' := (do_requests v rs st).1 in
  let evs := (do_requests v rs st).2 in
  deadline_millis_ (timer st')
  = last_deadline (deadline_millis_ (timer st)) rs
  ∧ external_kill_request_flag_ st'
    = external_kill_request_flag_ st && negb (existsb is_kill rs)
  ∧ dump_stack_request_flag_ st'
    = dump_stack_request_flag_ st && negb (existsb is_dump rs)
  ∧ (existsb is_kill rs || existsb is_dump rs = true → poked evs = true).
Proof.
  revert st. induction rs as [|r rs IH]; intros st; simpl.
  { rewrite !andb_true_r. repeat split. discriminate. }
  destruct (do_request v r st) as [st1 evs1] eqn:Hr.
  specialize (IH st1).
  destruct (do_requests v rs st1) as [st2 evs2]. simpl in *.
  destruct IH as (Hd & Hk & Hs & Hp).
  rewrite Hd, Hk, Hs, poked_app.
  destruct r as [| |now limit]; simpl in Hr.
  - destruct v; injection Hr as <- <-; simpl;
      rewrite andb_false_r; repeat split.
  - destruct v; injection Hr as <- <-; simpl;
      rewrite andb_false_r; repeat split; auto using orb_true_r.
  - unfold SetWallTimeLimit, deadline_for in *.
    destruct v, (limit =? ZeroDuration); injection Hr as <- <-; simpl;
      repeat split; auto; intros H; rewrite ?(Hp H); auto using orb_true_r.
Qed.

(** Arming the timer stores the deadline [now + limit] rounded down to a
    whole millisecond (as long as it fits in 64 bits): never later than the
    deadline asked for, less than a millisecond earlier.  It is not before
    [now] for a positive limit and not after it for a negative one, and it
    is the value [0] that disarms the timer only for a deadline within the
    first millisecond of the epoch. *)
Theorem SetWallTimeLimit_rounds_down v now limit m :
  limit ≠ ZeroDuration →
  int64_min * 1000000 <= now + limit < (int64_max + 1) * 1000000 →
  let d := deadline_millis_ (SetWallTimeLimit v now limit m).1 in
  d * 1000000 <= now + limit < (d + 1) * 1000000
  ∧ (0 < limit → ToUnixMillis now <= d)
  ∧ (limit < 0 → d <= ToUnixMillis now)
  ∧ (d = 0 ↔ 0 <= now + limit < 1000000).
Proof.
  intros Hl Hrange d.
  assert (Hd : d = ToUnixMillis (now + limit)).
  { subst d. unfold SetWallTimeLimit.
    destruct v; destruct (Z.eqb_spec limit ZeroDuration); done. }
  clearbody d. subst d. unfold ToUnixMillis, int64_min, int64_max in *.
  assert (H63 : 2 ^ 63 = 9223372036854775808) by reflexivity.
  rewrite H63 in *.
  pose proof (Z.div_mod (now + limit) 1000000 ltac:(lia)) as Hq.
  pose proof (Z.mod_pos_bound (now + limit) 1000000 ltac:(lia)) as Hm.
  pose proof (Z.div_mod now 1000000 ltac:(lia)) as Hq'.
  pose proof (Z.mod_pos_bound now 1000000 ltac:(lia)) as Hm'.
  repeat split; try lia.
Qed.

End MonitorRequests.

(** ** Path validation *)

Section PathFacts.

Import Path.

Lemma split_not_nil s : split s ≠ [].
Proof.
  destruct s as [|c rest]; simpl; [done|].
  destruct (Ascii.eqb c slash); [done|]. by destruct (split rest).
Qed.

Lemma join_cons p ps : ps ≠ [] → join (p :: ps) = p ++ slash :: join ps.
Proof. intros Hps. destruct ps; [done|reflexivity]. Qed.

(** Joining the pieces of a path gives the path back. *)
Lemma join_split s : join (split s) = s.
Proof.
  induction s as [|c rest IH]; [reflexivity|]. simpl.
  destruct (Ascii.eqb_spec c slash) as [->|Hc].
  - rewrite join_cons by apply split_not_nil. by rewrite IH.
  - pose proof (split_not_nil rest) as Hne.
    destruct (split rest) as [|p ps]; [done|].
    destruct ps as [|q qs]; simpl in *; by rewrite <- IH.
Qed.

Lemma split_no_slash p : slash ∉ p → split p = [p].
Proof.
  induction p as [|c p IH]; intros Hp; [reflexivity|].
  apply not_elem_of_cons in Hp as [Hc Hp]. simpl.
  destruct (Ascii.eqb_spec c slash); [congruence|]. by rewrite IH.
Qed.

Lemma split_app_slash p s : slash ∉ p → split (p ++ slash :: s) = p :: split s.
Proof.
  induction p as [|c p IH]; intros Hp; simpl.
  - reflexivity.
  - apply not_elem_of_cons in Hp as [Hc Hp].
    destruct (Ascii.eqb_spec c slash); [congruence|]. by rewrite IH.
Qed.

(** Splitting what was joined gives the pieces back, when no piece holds
    a slash. *)
Lemma split_join parts :
  parts ≠ [] → Forall (λ p, slash ∉ p) parts → split (join parts) = parts.
Proof.
  induction parts as [|p ps IH]; intros Hne Hall; [done|].
  apply Forall_cons in Hall as [Hp Hps].
  destruct ps as [|q qs].
  - simpl. by apply split_no_slash.
  - rewrite join_cons by done. rewrite split_app_slash by done.
    by rewrite IH.
Qed.

Lemma split_pieces_no_slash s : Forall (λ p, slash ∉ p) (split s).
Proof.
  induction s as [|c rest IH]; simpl.
  - repeat constructor. apply not_elem_of_nil.
  - destruct (Ascii.eqb_spec c slash) as [->|Hc].
    + constructor; [apply not_elem_of_nil|done].
    + destruct (split rest) as [|p ps]; simpl.
      * repeat constructor. rewrite list_elem_of_singleton. congruence.
      * apply Forall_cons in IH as [Hp Hps]. constructor; [|done].
        rewrite not_elem_of_cons. split; [congruence|done].
Qed.

Lemma good_piece_spec p :
  good_piece p = true ↔ p ≠ [] ∧ p ≠ dot ∧ p ≠ dotdot.
Proof.
  unfold good_piece. rewrite !andb_true_iff, !negb_true_iff.
  rewrite !bool_decide_eq_false. tauto.
Qed.

Lemma Forall_removelast {A} (P : A → Prop) (l : list A) :
  Forall P l → Forall P (removelast l).
Proof.
  induction 1 as [|x l Hx Hl IH]; simpl; [constructor|].
  destruct l; [constructor|]. by constructor.
Qed.

(** Whatever the pieces, the normaliser keeps only good ones. *)
Lemma clean_fold_kept (P : list ascii → Prop) pieces dd acc :
  Forall P acc → Forall P pieces →
  Forall P (fold_left clean_step pieces (dd, acc)).2.
Proof.
  revert dd acc. induction pieces as [|p ps IH]; intros dd acc Hacc Hps; [done|].
  apply Forall_cons in Hps as [Hp Hps]. simpl.
  destruct (decide (p = dotdot)).
  - destruct acc as [|a acc']; apply IH; auto.
    by apply (Forall_removelast P (a :: acc')).
  - destruct (decide (p = dot)); apply IH; auto.
    apply Forall_app. split; [done|]. by constructor.
Qed.

Lemma clean_fold_not_dots pieces dd acc :
  Forall (λ p, p ≠ dot ∧ p ≠ dotdot) acc →
  Forall (λ p, p ≠ dot ∧ p ≠ dotdot) (fold_left clean_step pieces (dd, acc)).2.
Proof.
  revert dd acc. induction pieces as [|p ps IH]; intros dd acc Hacc; [done|].
  simpl. destruct (decide (p = dotdot)).
  - destruct acc as [|a acc']; apply IH; auto.
    by apply (Forall_removelast _ (a :: acc')).
  - destruct (decide (p = dot)); apply IH; auto.
    apply Forall_app. split; [done|]. by constructor.
Qed.

(** Good pieces are all kept, in order. *)
Lemma clean_fold_good pieces dd acc :
  Forall (λ p, good_piece p = true) pieces →
  fold_left clean_step pieces (dd, acc) = (dd, acc ++ pieces).
Proof.
  revert acc. induction pieces as [|p ps IH]; intros acc Hps; simpl.
  - by rewrite app_nil_r.
  - apply Forall_cons in Hps as [Hp Hps].
    apply good_piece_spec in Hp as (_ & Hdot & Hdd).
    destruct (decide (p = dotdot)); [done|].
    destruct (decide (p = dot)); [done|].
    rewrite IH by done. by rewrite <- app_assoc.
Qed.

Lemma filter_nonempty_good (pieces : list (list ascii)) :
  Forall (λ p, good_piece p = true) pieces →
  filter (λ p, p ≠ []) pieces = pieces.
Proof.
  induction 1 as [|p ps Hp Hps IH]; [done|].
  apply good_piece_spec in Hp as (Hne & _).
  rewrite filter_cons_True by done. by rewrite IH.
Qed.

Lemma CleanPath_absolute rest :
  CleanPath (slash :: rest)
  = match (fold_left clean_step (filter (λ p, p ≠ []) (split rest)) (0%nat, [])).2 with
    | [] => [slash]
    | parts => slash :: join parts
    end.
Proof.
  unfold CleanPath. simpl.
  rewrite filter_cons_False by (intros H; by apply H).
  destruct (fold_left clean_step _ _) as [dd parts]. simpl.
  by destruct parts.
Qed.

(** An absolute path is its own normal form exactly when it is canonical
    in the spec's sense. *)
Lemma CleanPath_fixpoint path :
  IsAbsolutePath path = true →
  (CleanPath path = path ↔ canonical path = true).
Proof.
  destruct path as [|c rest]; [done|]. simpl.
  intros Hc. apply Ascii.eqb_eq in Hc as ->.
  rewrite CleanPath_absolute. unfold canonical. simpl.
  rewrite orb_true_iff, bool_decide_eq_true, forallb_forall.
  rewrite <- List.Forall_forall.
  set (pieces := filter (λ p, p ≠ []) (split rest)).
  destruct (fold_left clean_step pieces (0%nat, [])) as [dd parts] eqn:Hfold.
  simpl. split.
  - intros Hfix.
    destruct parts as [|p ps].
    { left. by injection Hfix. }
    right.
    assert (Hrest : rest = join (p :: ps)) by (by injection Hfix).
    assert (Hkept : Forall (λ q, q ≠ [] ∧ slash ∉ q) (p :: ps)).
    { pose proof (clean_fold_kept (λ q, q ≠ [] ∧ slash ∉ q) pieces 0%nat []) as H.
      rewrite Hfold in H. apply H; [constructor|].
      apply Forall_forall. intros q Hq.
      apply list_elem_of_filter in Hq as [Hne Hq]. split; [done|].
      pose proof (split_pieces_no_slash rest) as Hs.
      rewrite Forall_forall in Hs. by apply Hs. }
    assert (Hnd : Forall (λ q, q ≠ dot ∧ q ≠ dotdot) (p :: ps)).
    { pose proof (clean_fold_not_dots pieces 0%nat []) as H.
      rewrite Hfold in H. apply H. constructor. }
    rewrite Hrest, split_join; [|done|].
    2:{ eapply Forall_impl; [exact Hkept|]. by intros q [_ ?]. }
    apply Forall_forall. intros q Hq.
    rewrite Forall_forall in Hkept, Hnd.
    apply good_piece_spec. specialize (Hkept q Hq). specialize (Hnd q Hq).
    tauto.
  - intros [->|Hgood].
    { subst pieces. simpl in Hfold. by injection Hfold as <- <-. }
    subst pieces. rewrite filter_nonempty_good in Hfold by done.
    rewrite clean_fold_good in Hfold by done.
    injection Hfold as <- <-. simpl.
    pose proof (split_not_nil rest) as Hne.
    destruct (split rest) as [|p ps] eqn:Hs; [done|].
    f_equal. change (join (p :: ps) = rest). rewrite <- Hs. apply join_split.
Qed.

End PathFacts.

(** ** The policy builder *)

Section BuilderFacts.

Import Bpf Builder.

(** *** [ValidateAbsolutePath] *)

Lemma not_canonical_spec p :
  Path.canonical p = false ↔
  Path.IsAbsolutePath p = false
  ∨ ∃ rest piece, p = Path.slash :: rest ∧ rest ≠ [] ∧ piece ∈ Path.split rest
                  ∧ (piece = [] ∨ piece = Path.dot ∨ piece = Path.dotdot).
Proof.
  destruct p as [|c rest]; simpl.
  { split; [by left|done]. }
  destruct (Ascii.eqb_spec c Path.slash) as [->|Hc]; simpl.
  2:{ split; [by left|done]. }
  rewrite orb_false_iff, bool_decide_eq_false. split.
  - intros [Hrest Hall]. right. exists rest.
    apply not_true_iff_false in Hall.
    rewrite forallb_forall, <- List.Forall_forall in Hall.
    apply not_Forall_Exists in Hall; [|intros x; apply _].
    apply Exists_exists in Hall as (piece & Hin & Hbad).
    exists piece. repeat split; try done.
    simpl in Hbad. rewrite good_piece_spec in Hbad.
    destruct (decide (piece = [])); [tauto|].
    destruct (decide (piece = Path.dot)); [tauto|].
    destruct (decide (piece = Path.dotdot)); tauto.
  - intros [|(rest' & piece & Heq & Hrest & Hin & Hbad)]; [done|].
    injection Heq as <-. split; [done|].
    apply not_true_iff_false. rewrite forallb_forall. intros Hall.
    specialize (Hall piece). rewrite <- list_elem_of_In in Hall.
    specialize (Hall Hin). apply good_piece_spec in Hall. tauto.
Qed.

(** C5.  [ValidateAbsolutePath] returns a canonical path unchanged (["/"]
    is one) and refuses every other path with an invalid-argument error;
    the paths it refuses are the relative ones and the absolute ones with
    an empty piece (a double or a trailing slash), a [.] or a [..]. *)
Theorem ValidateAbsolutePath_canonical (path : string) :
  let p := list_ascii_of_string path in
  (Path.canonical p = true → ValidateAbsolutePath path = Ok path)
  ∧ (Path.canonical p = false →
     StatusIs kInvalidArgument (ValidateAbsolutePath path) = true)
  ∧ (Path.canonical p = false ↔
     Path.IsAbsolutePath p = false
     ∨ ∃ rest piece,
         p = Path.slash :: rest ∧ rest ≠ [] ∧ piece ∈ Path.split rest
         ∧ (piece = [] ∨ piece = Path.dot ∨ piece = Path.dotdot))
  ∧ ValidateAbsolutePath "/" = Ok "/"%string.
Proof.
  intros p. repeat split.
  - intros Hcan. unfold ValidateAbsolutePath. fold p.
    assert (Habs : Path.IsAbsolutePath p = true).
    { destruct p; [done|]. simpl in *. by apply andb_true_iff in Hcan as [? _]. }
    rewrite Habs. simpl.
    apply (CleanPath_fixpoint p Habs) in Hcan. rewrite Hcan.
    destruct (decide (p = p)); [|done].
    unfold p. by rewrite string_of_list_ascii_of_string.
  - intros Hcan. unfold ValidateAbsolutePath. fold p.
    destruct (Path.IsAbsolutePath p) eqn:Habs; simpl; [|done].
    destruct (decide (Path.CleanPath p = p)) as [Hfix|]; [|done].
    apply (CleanPath_fixpoint p Habs) in Hfix. congruence.
  - apply not_canonical_spec.
  - apply not_canonical_spec.
Qed.

(** The paths of the test [TestValidateAbsolutePath]. *)
Example TestValidateAbsolutePath :
  Forall (λ bad_path, StatusIs kInvalidArgument (ValidateAbsolutePath bad_path) = true)
    [".."; "a"; "a/b"; "a/b/c"; "/a/b/c/../d"; "/a/b/c/./d"; "/a/b/c//d";
     "/a/b/c/d/"; "/a/bAAAAAAAAAAAAAAAAAAAAAA/c/d/"]%string
  ∧ Forall (λ good_path, ValidateAbsolutePath good_path = Ok good_path)
      ["/"; "/a/b/c/d"; "/a/b/AAAAAAAAAAAAAAAAAAAAAAAAAAAAAAAAAAAAAA"]%string.
Proof. split; repeat constructor. Qed.

(** *** [TryBuild] is single-shot *)



Lemma TryBuild_Ok b p b' :
  TryBuild b = (Ok p, b') →
  last_status_ b = None ∧ already_built_ b = false
  ∧ b' = set_built b ∧ program p = compile (user_policy_ b).
Proof.
  unfold TryBuild. destruct (last_status_ b); [done|].
  destruct (already_built_ b); [done|].
  intros [= <- <-]. done.
Qed.




(** The test [TestCanOnlyBuildOnce]. *)
Example TestCanOnlyBuildOnce :
  let b := new_builder in
  IsOk (TryBuild b).1 = true
  ∧ (TryBuild (TryBuild b).2).1
    = Err (FailedPreconditionError "Can only build policy once.").
Proof. split; reflexivity. Qed.

(** *** Jump targets of a built policy *)

Lemma uint8_le n : (N.to_nat (uint8 n) <= n)%nat.
Proof.
  unfold uint8. pose proof (N.Div0.mod_le (N.of_nat n) (2 ^ 8)). lia.
Qed.

Lemma uint32_le n : (N.to_nat (uint32 n) <= n)%nat.
Proof.
  unfold uint32. pose proof (N.Div0.mod_le (N.of_nat n) (2 ^ 32)). lia.
Qed.

Lemma jumps_within_cons ins prog :
  (∀ off, off ∈ jump_offsets ins → (N.to_nat off <= length prog)%nat) →
  jumps_within 1 prog → jumps_within 1 (ins :: prog).
Proof.
  intros Hins Hprog [|i] x off Hx Hoff; simpl in *.
  - injection Hx as <-. specialize (Hins off Hoff). lia.
  - specialize (Hprog i x off Hx Hoff). lia.
Qed.

Lemma jumps_within_app slack a b :
  jumps_within 1 a → jumps_within slack b → (0 < length b + slack)%nat →
  jumps_within slack (a ++ b).
Proof.
  intros Ha Hb Hpos i x off Hx Hoff. rewrite length_app.
  destruct (decide (i < length a)%nat).
  - rewrite lookup_app_l in Hx by done. specialize (Ha i x off Hx Hoff). lia.
  - rewrite lookup_app_r in Hx by lia. specialize (Hb _ x off Hx Hoff). lia.
Qed.

Lemma no_jump_within slack ins :
  jump_offsets ins = [] → jumps_within slack [ins].
Proof.
  intros Hins [|i] x off Hx Hoff; [|done].
  injection Hx as <-. rewrite Hins in Hoff. by apply elem_of_nil in Hoff.
Qed.

Lemma CheckBpfBounds_offsets filter max_jump :
  CheckBpfBounds filter max_jump = true ↔
  ∀ off, off ∈ jump_offsets filter → (N.to_nat off <= max_jump)%nat.
Proof.
  unfold CheckBpfBounds, jump_offsets.
  destruct (BPF_CLASS (code filter) =? BPF_JMP)%N.
  2:{ split; [|done]. intros _ off H. by apply elem_of_nil in H. }
  destruct (BPF_OP (code filter) =? BPF_JA)%N.
  - rewrite N.leb_le. split.
    + intros H off Hoff. apply list_elem_of_singleton in Hoff as ->. lia.
    + intros H. specialize (H (k filter)).
      rewrite list_elem_of_singleton in H. specialize (H eq_refl). lia.
  - rewrite andb_true_iff, !N.leb_le. split.
    + intros [H1 H2] off Hoff.
      apply elem_of_cons in Hoff as [->|Hoff]; [lia|].
      apply list_elem_of_singleton in Hoff as ->. lia.
    + intros H. split.
      * specialize (H (jt filter)). rewrite elem_of_cons in H.
        specialize (H (or_introl eq_refl)). lia.
      * specialize (H (jf filter)). rewrite elem_of_cons, list_elem_of_singleton in H.
        specialize (H (or_intror eq_refl)). lia.
Qed.

(** The bounds check, spelled out: no jump of the rule goes further than
    the instruction that follows the rule. *)
Lemma policy_in_bounds_spec policy :
  policy_in_bounds policy = true ↔
  ∀ i ins off, policy !! i = Some ins → off ∈ jump_offsets ins →
               (i + 1 + N.to_nat off <= length policy)%nat.
Proof.
  induction policy as [|f rest IH]; simpl.
  { split; [|done]. by intros _ i ins off Hi. }
  rewrite andb_true_iff, IH, CheckBpfBounds_offsets. split.
  - intros [Hf Hrest] [|i] ins off Hi Hoff; simpl in *.
    + injection Hi as <-. specialize (Hf off Hoff). lia.
    + specialize (Hrest i ins off Hi Hoff). lia.
  - intros H. split.
    + intros off Hoff. specialize (H 0%nat f off eq_refl Hoff). lia.
    + intros i ins off Hi Hoff. specialize (H (S i) ins off Hi Hoff). lia.
Qed.

Lemma policy_in_bounds_within policy :
  policy_in_bounds policy = true → jumps_within 1 (policy ++ [LOAD_SYSCALL_NR]).
Proof.
  rewrite policy_in_bounds_spec. intros H i ins off Hi Hoff.
  rewrite length_app. simpl.
  destruct (decide (i < length policy)%nat).
  - rewrite lookup_app_l in Hi by done. specialize (H i ins off Hi Hoff). lia.
  - rewrite lookup_app_r in Hi by lia.
    destruct (i - length policy)%nat; [|done].
    injection Hi as <-. by apply elem_of_nil in Hoff.
Qed.

Lemma JA_within l n :
  jumps_within 1 l → (n <= length l)%nat →
  jumps_within 1 (BPF_STMT (BPF_JMP + BPF_JA) (uint32 n) :: l).
Proof.
  intros Hl Hn. apply jumps_within_cons; [|done].
  intros off Hoff. apply list_elem_of_singleton in Hoff as ->.
  pose proof (uint32_le n). simpl. lia.
Qed.

Lemma JEQ_within l num t f :
  jumps_within 1 l →
  (N.to_nat t <= length l)%nat → (N.to_nat f <= length l)%nat →
  jumps_within 1 (BPF_JUMP (BPF_JMP + BPF_JEQ + BPF_K) num t f :: l).
Proof.
  intros Hl Ht Hf. apply jumps_within_cons; [|done].
  intros off Hoff. apply elem_of_cons in Hoff as [->|Hoff]; [done|].
  by apply list_elem_of_singleton in Hoff as ->.
Qed.

Lemma add_syscall_jump_within policy_len st num :
  jumps_within 1 (out st) →
  jumps_within 1 (out (add_syscall_jump policy_len st num)).
Proof.
  intros Hout. unfold add_syscall_jump.
  destruct (if last st then _ else _) as [out1 jf1] eqn:E1.
  assert (H1 : jumps_within 1 out1 ∧ (N.to_nat jf1 <= length out1)%nat).
  { pose proof (uint8_le (length (out st))).
    destruct (last st); [destruct (kMaxShortJump <? length (out st))%nat|];
      injection E1 as <- <-; split; try done; try (simpl; lia).
    by apply JA_within. }
  destruct H1 as [Ho1 Hj1].
  destruct (if (kMaxShortJump <? length out1 - do_policy_loc st)%nat then _ else _)
    as [[out2 loc2] jf2] eqn:E2.
  assert (H2 : jumps_within 1 out2 ∧ (N.to_nat jf2 <= length out2)%nat).
  { destruct (kMaxShortJump <? length out1 - do_policy_loc st)%nat;
      injection E2 as <- <- <-; split; try done.
    - apply JA_within; [done|lia].
    - pose proof (N.Div0.mod_le (jf1 + 1) (2 ^ 8)). simpl. lia. }
  destruct H2 as [Ho2 Hj2]. simpl.
  apply JEQ_within; try done.
  pose proof (uint8_le (length out2 - loc2)). lia.
Qed.

Lemma syscalls_fragment_within nums policy :
  policy_in_bounds policy = true → jumps_within 1 (syscalls_fragment nums policy).
Proof.
  intros Hpol. unfold syscalls_fragment.
  generalize (rev nums) as l.
  set (start := {| out := policy ++ [LOAD_SYSCALL_NR];
                   do_policy_loc := S (length policy); last := true |}).
  assert (Hstart : jumps_within 1 (out start)) by by apply policy_in_bounds_within.
  clearbody start. intros l. revert start Hstart.
  induction l as [|num l IH]; intros st Hst; [done|].
  simpl. apply IH. by apply add_syscall_jump_within.
Qed.

Lemma SYSCALL_within num action :
  jump_offsets action = [] → jumps_within 1 (SYSCALL num action).
Proof.
  intros Hact. unfold SYSCALL. apply JEQ_within.
  - by apply no_jump_within.
  - simpl. lia.
  - simpl. lia.
Qed.

Lemma policy_rejection_None nums policy :
  policy_rejection nums policy = None ↔
  nums ≠ [] ∧ policy_in_bounds policy = true
  ∧ (__NR_bpf ∉ nums) ∧ (__NR_ptrace ∉ nums).
Proof.
  unfold policy_rejection.
  destruct (decide (nums = [])) as [Hnil|Hnil].
  { split; [done|]. by intros (? & _). }
  destruct (policy_in_bounds policy); simpl.
  2:{ split; [done|]. by intros (_ & ? & _). }
  destruct (bool_decide_reflect (__NR_bpf ∈ nums)) as [Hb|Hb]; simpl.
  { split; [done|]. by intros (_ & _ & ? & _). }
  destruct (bool_decide_reflect (__NR_ptrace ∈ nums)) as [Hp|Hp]; simpl.
  { split; [done|]. by intros (_ & _ & _ & ?). }
  done.
Qed.

Lemma policy_rejection_invalid nums policy st :
  policy_rejection nums policy = Some st → status_code st = kInvalidArgument.
Proof.
  unfold policy_rejection.
  repeat (case_match; try (by intros [= <-])).
Qed.

Lemma ValidateAbsolutePath_invalid path st :
  ValidateAbsolutePath path = Err st → status_code st = kInvalidArgument.
Proof.
  unfold ValidateAbsolutePath.
  repeat (case_match; try (by intros [= <-])).
Qed.

(** Every call keeps the rules of an error-free builder inside their
    bounds. *)
Lemma do_call_builder_ok kr c b : builder_ok b → builder_ok (do_call kr c b).
Proof.
  assert (Happ : ∀ frag b, builder_ok b → jumps_within 1 frag → frag ≠ [] →
                           builder_ok (append_policy frag b)).
  { intros frag b0 Hb Hfrag Hne Hst. simpl in *.
    apply jumps_within_app; [by apply Hb|done|lia]. }
  assert (Hadd : ∀ nums policy b, builder_ok b →
                   builder_ok (AddPolicyOnSyscalls kr nums policy b)).
  { intros nums policy b0 Hb. unfold AddPolicyOnSyscalls.
    destruct (policy_rejection nums policy) eqn:Hrej; [by intros ?|].
    apply policy_rejection_None in Hrej as (_ & Hpol & _).
    intros Hst. simpl in *.
    destruct (decide (syscalls_fragment nums policy = [])) as [->|Hne].
    { rewrite app_nil_r. by apply Hb. }
    apply jumps_within_app; [by apply Hb| |lia].
    by apply syscalls_fragment_within. }
  assert (Hmount : ∀ mk path b, builder_ok b → builder_ok (add_path_mount mk path b)).
  { intros mk path b0 Hb. unfold add_path_mount.
    destruct (ValidateAbsolutePath path); [exact Hb|by intros ?]. }
  intros Hb. destruct c; simpl; auto.
  - unfold AllowSyscall. destruct (decide _); [done|].
    apply Happ; [exact Hb| |done]. by apply SYSCALL_within.
  - unfold BlockSyscallWithErrno. destruct (decide _); [done|].
    apply Happ; [exact Hb| |done]. by apply SYSCALL_within.
  - by apply Hadd.
  - by apply Hmount.
  - by apply Hmount.
  - by apply Hmount.
  - unfold TryBuild. destruct (last_status_ b); [done|].
    destruct (already_built_ b); done.
Qed.

Lemma do_calls_builder_ok kr cs b : builder_ok b → builder_ok (do_calls kr cs b).
Proof.
  revert b. induction cs as [|c cs IH]; intros b Hb; [done|].
  simpl. apply IH. by apply do_call_builder_ok.
Qed.

Lemma compile_jumps_in_program user_policy :
  jumps_within 1 user_policy → jumps_in_program (compile user_policy).
Proof.
  intros Huser. unfold compile, jumps_in_program.
  apply jumps_within_app.
  - unfold prologue. apply jumps_within_cons; [by intros off H; apply elem_of_nil in H|].
    apply JEQ_within; [|simpl; lia|simpl; lia].
    apply jumps_within_cons; [by intros off H; apply elem_of_nil in H|].
    by apply no_jump_within.
  - apply jumps_within_app; [done|by apply no_jump_within|simpl; lia].
  - rewrite length_app. simpl. lia.
Qed.

(** An invalid-argument error stays in the builder. *)
Lemma do_call_holds_invalid kr c b :
  holds_invalid_argument b → holds_invalid_argument (do_call kr c b).
Proof.
  intros (st & Hst & Hcode).
  assert (Hadd : ∀ nums policy,
            holds_invalid_argument (AddPolicyOnSyscalls kr nums policy b)).
  { intros nums policy. unfold AddPolicyOnSyscalls.
    destruct (policy_rejection nums policy) as [st'|] eqn:Hrej.
    - exists st'. split; [done|]. by eapply policy_rejection_invalid.
    - by exists st. }
  assert (Hmount : ∀ mk path, holds_invalid_argument (add_path_mount mk path b)).
  { intros mk path. unfold add_path_mount.
    destruct (ValidateAbsolutePath path) as [|st'] eqn:Hv.
    - by exists st.
    - exists st'. split; [done|]. by eapply ValidateAbsolutePath_invalid. }
  destruct c; simpl; auto; try by exists st.
  - unfold AllowSyscall. destruct (decide _); by exists st.
  - unfold BlockSyscallWithErrno. destruct (decide _); by exists st.
  - apply Hadd.
  - apply Hmount.
  - apply Hmount.
  - apply Hmount.
  - unfold TryBuild. rewrite Hst. by exists st.
Qed.

Lemma do_calls_holds_invalid kr cs b :
  holds_invalid_argument b → holds_invalid_argument (do_calls kr cs b).
Proof.
  revert b. induction cs as [|c cs IH]; intros b Hb; [done|].
  simpl. apply IH. by apply do_call_holds_invalid.
Qed.

Lemma TryBuild_holds_invalid b :
  holds_invalid_argument b → StatusIs kInvalidArgument (TryBuild b).1 = true.
Proof.
  intros (st & Hst & Hcode). unfold TryBuild. rewrite Hst. simpl. by rewrite Hcode.
Qed.

(** C2.  In every policy that was built, from a fresh builder and any
    sequence of calls, each jump lands on an instruction of the program; and
    a builder that was given a rule with a jump past the rule's bounds
    builds nothing: [TryBuild] returns an invalid-argument error, whatever
    else is called on the builder. *)
Theorem built_policy_jumps_in_program :
  (∀ kr cs p b',
     TryBuild (do_calls kr cs new_builder) = (Ok p, b') →
     jumps_in_program (program p))
  ∧ (∀ kr b nums policy cs i ins off,
       policy !! i = Some ins → off ∈ jump_offsets ins →
       (length policy < i + 1 + N.to_nat off)%nat →
       StatusIs kInvalidArgument
         (TryBuild (do_calls kr cs (AddPolicyOnSyscalls kr nums policy b))).1
       = true).
Proof.
  split.
  - intros kr cs p b' Hbuild.
    apply TryBuild_Ok in Hbuild as (Hst & _ & _ & ->).
    apply compile_jumps_in_program.
    apply (do_calls_builder_ok kr cs new_builder); [|done].
    intros _ i ins off Hi. done.
  - intros kr b nums policy cs i ins off Hi Hoff Hfar.
    apply TryBuild_holds_invalid, do_calls_holds_invalid.
    assert (Hpol : policy_in_bounds policy = false).
    { apply not_true_iff_false. rewrite policy_in_bounds_spec. intros H.
      specialize (H i ins off Hi Hoff). lia. }
    unfold AddPolicyOnSyscalls.
    destruct (policy_rejection nums policy) as [st|] eqn:Hrej.
    + exists st. split; [done|]. by eapply policy_rejection_invalid.
    + apply policy_rejection_None in Hrej as (_ & ? & _). congruence.
Qed.

(** The test [AddPolicyOnSyscallJumpOutOfBounds]. *)
Example AddPolicyOnSyscallJumpOutOfBounds kr :
  StatusIs kInvalidArgument
    (TryBuild (AddPolicyOnSyscall kr __NR_write
                 [BPF_JUMP (BPF_JMP + BPF_JEQ + BPF_K) 1 2 0] new_builder)).1
  = true.
Proof. destruct kr; reflexivity. Qed.

(** The test [AddPolicyOnSyscallsNoEmptyList]. *)
Example AddPolicyOnSyscallsNoEmptyList kr :
  StatusIs kInvalidArgument
    (TryBuild (AddPolicyOnSyscalls kr [] [ALLOW] new_builder)).1 = true.
Proof. destruct kr; reflexivity. Qed.


(** *** Two rules for the same syscall *)

Lemma AllowSyscall_handled num b : num ∈ handled_syscalls_ (AllowSyscall num b).
Proof.
  unfold AllowSyscall. destruct (decide (num ∈ handled_syscalls_ b)); [done|].
  simpl. apply elem_of_union_l. by apply elem_of_singleton.
Qed.













(** *** The size of the user policy *)

Lemma syscalls_fragment_length nums policy :
  (length policy < length (syscalls_fragment nums policy))%nat.
Proof.
  unfold syscalls_fragment.
  set (start := {| out := policy ++ [LOAD_SYSCALL_NR];
                   do_policy_loc := S (length policy); last := true |}).
  assert (Hstart : (length policy < length (out start))%nat).
  { simpl. rewrite length_app. simpl. lia. }
  clearbody start. revert start Hstart.
  induction (rev nums) as [|num l IH]; intros st Hst; [done|].
  simpl. apply IH. unfold add_syscall_jump.
  destruct (last st); [destruct (kMaxShortJump <? length (out st))%nat|];
    simpl; match goal with
           | |- context [if ?c then _ else _] => destruct c
           end; simpl; lia.
Qed.

Lemma handled_syscalls_grow kr c b num :
  num ∈ handled_syscalls_ b → num ∈ handled_syscalls_ (do_call kr c b).
Proof.
  intros Hn. destruct c; simpl; try done.
  - unfold AllowSyscall. destruct (decide _); [done|].
    simpl. by apply elem_of_union_r.
  - unfold BlockSyscallWithErrno. destruct (decide _); [done|].
    simpl. by apply elem_of_union_r.
  - unfold AddPolicyOnSyscall, AddPolicyOnSyscalls.
    destruct (policy_rejection _ _); [destruct kr|]; done.
  - unfold AddPolicyOnSyscalls.
    destruct (policy_rejection _ _); [destruct kr|]; done.
  - unfold AddFile, add_path_mount. by destruct (ValidateAbsolutePath _).
  - unfold AddDirectory, add_path_mount. by destruct (ValidateAbsolutePath _).
  - unfold AddTmpfs, add_path_mount. by destruct (ValidateAbsolutePath _).
  - unfold TryBuild. destruct (last_status_ b); [done|].
    by destruct (already_built_ b).
Qed.

Lemma handled_syscalls_grow_calls kr cs b num :
  num ∈ handled_syscalls_ b → num ∈ handled_syscalls_ (do_calls kr cs b).
Proof.
  revert b. induction cs as [|c cs IH]; intros b Hb; [done|].
  simpl. apply IH. by apply handled_syscalls_grow.
Qed.

(** After a first [AllowSyscall(n)], and whatever is called next, a further
    [AllowSyscall(n)] leaves the builder as it is. *)
Lemma AllowSyscall_again kr cs num b :
  let b1 := do_calls kr cs (AllowSyscall num b) in
  AllowSyscall num b1 = b1.
Proof.
  intros b1. unfold AllowSyscall at 1.
  destruct (decide (num ∈ handled_syscalls_ b1)) as [|Hn]; [done|].
  exfalso. apply Hn. apply handled_syscalls_grow_calls, AllowSyscall_handled.
Qed.

(** The namespace and network helpers leave the user policy alone. *)
Lemma namespace_helpers_keep_policy b path size :
  user_policy_ (AddFile path b) = user_policy_ b
  ∧ user_policy_ (AddDirectory path b) = user_policy_ b
  ∧ user_policy_ (AddTmpfs path size b) = user_policy_ b
  ∧ user_policy_ (UseForkServerSharedNetNs b) = user_policy_ b
  ∧ user_policy_ (AllowUnrestrictedNetworking b) = user_policy_ b.
Proof.
  unfold AddFile, AddDirectory, AddTmpfs, add_path_mount.
  destruct (ValidateAbsolutePath path); done.
Qed.

(** An accepted [AddPolicyOnSyscall] makes the user policy longer.  For a
    refused one the answer is the one [keeps_rejected] gives. *)
Lemma AddPolicyOnSyscall_size kr num policy b :
  let b1 := AddPolicyOnSyscall kr num policy b in
  (policy_rejection [num] policy = None → (policy_size b < policy_size b1)%nat)
  ∧ (kr = true → (policy_size b < policy_size b1)%nat)
  ∧ (kr = false → policy_rejection [num] policy ≠ None →
     policy_size b1 = policy_size b).
Proof.
  pose proof (syscalls_fragment_length [num] policy) as Hlen.
  unfold AddPolicyOnSyscall, AddPolicyOnSyscalls, policy_size.
  destruct (policy_rejection [num] policy) as [st|] eqn:Hrej; simpl.
  - destruct kr; simpl; repeat split; try done; rewrite ?length_app; lia.
  - repeat split; try done; rewrite length_app; lia.
Qed.

(** *** The tests, replayed *)

(** The test [Testpolicy_size], without the three calls whose helpers the
    sources do not show ([AllowSystemMalloc], which the first
    [AllowSyscall(__NR_munmap)] stands in for, and [AllowTCGETS]). *)
Example Testpolicy_size kr :
  sizes_as_asserted kr
    [(CallAllowSyscall __NR_chroot, assert_increased);
     (CallAllowSyscall __NR_chroot, assert_same);
     (CallAllowSyscall __NR_umask, assert_increased);
     (CallAllowSyscall __NR_umask, assert_same);
     (CallAllowSyscall __NR_chroot, assert_same);
     (CallAllowSyscall __NR_chroot, assert_same);
     (CallAllowSyscall __NR_munmap, assert_increased);
     (CallAllowSyscall __NR_munmap, assert_same);
     (CallBlockSyscallWithErrno __NR_munmap 1, assert_same);
     (CallBlockSyscallWithErrno __NR_openat 1, assert_increased);
     (CallAddPolicyOnSyscall __NR_fchmod [ALLOW], assert_increased);
     (CallAddPolicyOnSyscall __NR_fchmod [ALLOW], assert_increased);
     (CallAddPolicyOnSyscalls [__NR_fchmod; __NR_chdir] [ALLOW], assert_increased);
     (CallAddPolicyOnSyscalls [__NR_fchmod; __NR_chdir] [ALLOW], assert_increased);
     (CallAddPolicyOnSyscall __NR_umask [ALLOW], assert_increased);
     (CallAddPolicyOnSyscall __NR_umask [ALLOW], assert_increased);
     (CallAddFile "/usr/bin/find", assert_same);
     (CallAddDirectory "/bin", assert_same);
     (CallAddTmpfs "/tmp" (4 * 2 ^ 20), assert_same);
     (CallUseForkServerSharedNetNs, assert_same);
     (CallAllowUnrestrictedNetworking, assert_same)]
    new_builder
  = true.
Proof. destruct kr; vm_compute; reflexivity. Qed.

(** The test [CanBypassPtrace]. *)
Example CanBypassPtrace kr :
  IsOk (TryBuild (BlockSyscallWithErrno __NR_ptrace ENOENT
                    (AddPolicyOnSyscall kr __NR_ptrace [ALLOW] new_builder))).1
  = false.
Proof. destruct kr; vm_compute; reflexivity. Qed.

(** The test [TestIsCopyable]: a copy of a builder is a builder of its
    own, and both can be built. *)
Example TestIsCopyable :
  let builder := AllowSyscall 39 new_builder in
  let copy := builder in
  policy_size copy = policy_size builder
  ∧ IsOk (TryBuild builder).1 = true
  ∧ IsOk (TryBuild copy).1 = true.
Proof. repeat split; vm_compute; reflexivity. Qed.

End BuilderFacts.

(** ** The statements at concrete inputs *)

Section Instances.

Import Samples.

(** C10.  With [kLogBufSize = 3000] and a prefix of 16 characters, a
    message of exactly 2984 characters does not fit (its terminator has no
    room), yet the line that is written is the prefix and the first 2983
    characters, with no truncation notice and no line feed; a message one
    character longer is cut to leave room for the notice, as the comment on
    [VADoRawLog] describes. *)
Theorem RawLogVA_exact_fit_drops_notice :
  RawLogging.RawLogVA 3000 false log_stack RawLogging.kError log_file 1
    (Some (log_text 2984))
  = Some [RawLogging.SafeWriteToStderr
            (RawLogging.chars "[f.cc : 1] RAW: " ++ log_text 2983)]
  ∧ RawLogging.RawLogVA 3000 false log_stack RawLogging.kError log_file 1
      (Some (log_text 2985))
    = Some [RawLogging.SafeWriteToStderr
              (RawLogging.chars "[f.cc : 1] RAW: " ++ log_text 2958
               ++ RawLogging.kTruncated)].
Proof. split; vm_compute; reflexivity. Qed.

(** C9 at two connected channels. *)
Lemma Comms_move_assign_witness :
  let w' := CommsModel.move_assign 1 2 comms_world in
  CommsModel.objs w' !! 1%nat = Some comms_b
  ∧ CommsModel.owned_fds comms_b ⊆ CommsModel.open_fds w'
  ∧ (∃ b', CommsModel.objs w' !! 2%nat = Some b'
           ∧ CommsModel.IsTerminated b' = true
           ∧ CommsModel.IsConnected b' = false
           ∧ CommsModel.owned_fds b' = ∅
           ∧ CommsModel.can_transfer b' (CommsModel.open_fds w') = false)
  ∧ CommsModel.open_fds w' = CommsModel.open_fds comms_world ∖ CommsModel.owned_fds comms_a
  ∧ (∀ i, i ≠ 1%nat → i ≠ 2%nat →
          CommsModel.objs w' !! i = CommsModel.objs comms_world !! i).
Proof.
  apply (proj1 Comms_move_assign comms_world 1%nat 2%nat comms_a comms_b).
  - discriminate.
  - reflexivity.
  - reflexivity.
  - apply (bool_decide_eq_true_1 _). vm_compute. reflexivity.
  - apply (bool_decide_eq_true_1 _). vm_compute. reflexivity.
Defined.

(** C7 at a request of three bytes. *)
Lemma unsupported_request_witness :
  (NetworkProxy.ProcessConnectRequest deny_all (answers_to short_request) idle_server).2
  = [NetworkProxy.RecvBytes (Some short_request);
     NetworkProxy.SendInt32 NetworkProxy.EINVAL true].
Proof.
  apply (unsupported_request_gets_EINVAL deny_all (answers_to short_request)
           idle_server short_request).
  - reflexivity.
  - intros [H _]. discriminate H.
  - intros [H _]. discriminate H.
Defined.

(** C8 at a request for 8.8.8.8:53 under an empty allowlist, followed by a
    second request that is never looked at. *)
Lemma violation_sends_no_reply_witness :
  NetworkProxy.trace
    (NetworkProxy.Run deny_all [answers_to dns_request; answers_to short_request]
       idle_server)
  = [NetworkProxy.RecvBytes (Some dns_request); NetworkProxy.notify_violation_fn;
     NetworkProxy.LogShutdown]
  ∧ NetworkProxy.unused
      (NetworkProxy.Run deny_all [answers_to dns_request; answers_to short_request]
         idle_server)
    = [answers_to short_request].
Proof.
  pose proof (violation_sends_no_reply deny_all (answers_to dns_request)
                [answers_to short_request] idle_server dns_request
                eq_refl eq_refl eq_refl (or_introl (conj eq_refl eq_refl)) eq_refl)
    as H.
  split; [exact (proj1 H)|exact (proj2 (proj2 (proj2 (proj2 (proj2 (proj2 H))))))].
Defined.


(** C2 at a builder that took a few calls, and at the rule of the test
    [AddPolicyOnSyscallJumpOutOfBounds]. *)
Lemma built_policy_jumps_witness :
  Builder.jumps_in_program
    (Builder.compile (Builder.user_policy_
                        (Builder.do_calls false some_calls Builder.new_builder)))
  ∧ Builder.StatusIs Builder.kInvalidArgument
      (Builder.TryBuild
         (Builder.AddPolicyOnSyscalls false [Builder.__NR_write]
            [jump_out_of_bounds] Builder.new_builder)).1 = true.
Proof.
  split.
  - apply (proj1 built_policy_jumps_in_program false some_calls
             {| Builder.program :=
                  Builder.compile
                    (Builder.user_policy_
                       (Builder.do_calls false some_calls Builder.new_builder));
                Builder.policy_mounts := [Builder.FileMount "/usr/bin/find"];
                Builder.shared_netns := false;
                Builder.unrestricted_networking := false |}
             (Builder.set_built (Builder.do_calls false some_calls Builder.new_builder))).
    vm_compute. reflexivity.
  - apply (proj2 built_policy_jumps_in_program false Builder.new_builder
             [Builder.__NR_write] [jump_out_of_bounds] [] 0%nat
             jump_out_of_bounds 2%N).
    + reflexivity.
    + apply list_elem_of_here.
    + simpl. lia.
Defined.


(** C5 at a canonical path. *)
Lemma ValidateAbsolutePath_witness :
  Builder.ValidateAbsolutePath "/a/b/c/d" = Builder.Ok "/a/b/c/d"%string.
Proof.
  exact (proj1 (ValidateAbsolutePath_canonical "/a/b/c/d") eq_refl).
Defined.

(** The logger at a short message: the run is defined and the line is
    shorter than the buffer. *)
Lemma RawLogVA_stays_in_buffer_witness :
  ∃ text,
    RawLogging.RawLogVA 3000 false log_stack RawLogging.kError log_file 1
      (Some (log_text 5))
    = Some ([RawLogging.SafeWriteToStderr text] ++ [])
    ∧ Z.of_nat (length text) < 3000.
Proof.
  apply (RawLogVA_stays_in_buffer 3000 false log_stack RawLogging.kError
           log_file 1 (log_text 5)).
  - split; reflexivity.
  - reflexivity.
Defined.

(** The logger at a message of 4000 characters. *)
Lemma RawLogVA_truncated_witness :
  RawLogging.RawLogVA 3000 false log_stack RawLogging.kError log_file 1
    (Some (log_text 4000))
  = Some [RawLogging.SafeWriteToStderr
            (RawLogging.prefix_text log_file 1 ++ take 2958 (log_text 4000)
             ++ RawLogging.kTruncated)].
Proof.
  apply (RawLogVA_truncated 3000 log_stack RawLogging.kError log_file 1
           (log_text 4000)).
  - reflexivity.
  - reflexivity.
  - apply (bool_decide_eq_true_1 _). vm_compute. reflexivity.
  - apply (bool_decide_eq_true_1 _). vm_compute. reflexivity.
  - apply (bool_decide_eq_true_1 _). vm_compute. reflexivity.
  - apply (bool_decide_eq_true_1 _). vm_compute. reflexivity.
Defined.

(** The proxy at an allowed request whose socket and connection succeed. *)
Lemma allowed_request_witness :
  (NetworkProxy.ProcessConnectRequest allow_all (answers_to dns_request) idle_server).2
  = [NetworkProxy.RecvBytes (Some dns_request);
     NetworkProxy.socket_call NetworkProxy.AF_INET 5;
     NetworkProxy.connect_call 5 dns_request 0;
     NetworkProxy.SendInt32 0 true; NetworkProxy.SendFD 5 true;
     NetworkProxy.close_call 5].
Proof.
  pose proof (allowed_request_is_connected allow_all (answers_to dns_request)
                idle_server dns_request eq_refl eq_refl eq_refl eq_refl eq_refl)
    as (_ & _ & H).
  apply H; discriminate.
Defined.

(** The proxy at a failed receive, with one more request waiting. *)
Lemma Run_stops_on_fatal_error_witness :
  NetworkProxy.unused
    (NetworkProxy.Run allow_all [failed_recv; answers_to dns_request] idle_server)
  = [answers_to dns_request].
Proof.
  rewrite (Run_stops_on_fatal_error allow_all failed_recv [answers_to dns_request]
             idle_server eq_refl eq_refl eq_refl).
  reflexivity.
Defined.

(** Swapping the two sample channels twice. *)
Lemma Swap_involutive_witness :
  CommsModel.Swap 1 2 (CommsModel.Swap 1 2 comms_world) = comms_world.
Proof.
  exact (Swap_involutive comms_world 1%nat 2%nat comms_a comms_b eq_refl eq_refl).
Defined.

(** A message of five characters in a buffer of 3000. *)
Lemma RawLogVA_whole_line_witness :
  RawLogging.RawLogVA 3000 false log_stack RawLogging.kError log_file 1
    (Some (log_text 5))
  = Some [RawLogging.SafeWriteToStderr
            (RawLogging.prefix_text log_file 1 ++ log_text 5
             ++ [RawLogging.LF])].
Proof.
  apply (RawLogVA_whole_line 3000 false log_stack RawLogging.kError log_file 1
           (log_text 5)).
  - reflexivity.
  - reflexivity.
  - apply (bool_decide_eq_true_1 _). vm_compute. reflexivity.
  - apply (bool_decide_eq_true_1 _). vm_compute. reflexivity.
  - vm_compute. reflexivity.
Defined.

(** A message of 2983 characters after a prefix of 16, in a buffer of
    3000. *)
Lemma RawLogVA_line_feed_dropped_witness :
  RawLogging.RawLogVA 3000 false log_stack RawLogging.kError log_file 1
    (Some (log_text 2983))
  = Some [RawLogging.SafeWriteToStderr
            (RawLogging.prefix_text log_file 1 ++ log_text 2983)].
Proof.
  apply (RawLogVA_line_feed_dropped 3000 false log_stack RawLogging.kError
           log_file 1 (log_text 2983)).
  - reflexivity.
  - reflexivity.
  - apply (bool_decide_eq_true_1 _). vm_compute. reflexivity.
  - apply (bool_decide_eq_true_1 _). vm_compute. reflexivity.
  - vm_compute. reflexivity.
Defined.

(** A prefix of 2976 characters leaves 24 of the 3000. *)
Lemma RawLogVA_no_room_for_notice_witness :
  RawLogging.RawLogVA 3000 false log_stack RawLogging.kError (long_file 2964) 1
    (Some (log_text 100))
  = Some [RawLogging.SafeWriteToStderr
            (RawLogging.prefix_text (long_file 2964) 1
             ++ take 23 RawLogging.kTruncated)].
Proof.
  apply (RawLogVA_no_room_for_notice 3000 false log_stack RawLogging.kError
           (long_file 2964) 1 (log_text 100)).
  - reflexivity.
  - reflexivity.
  - apply (bool_decide_eq_true_1 _). vm_compute. reflexivity.
  - vm_compute. lia.
  - vm_compute. lia.
  - vm_compute. lia.
Defined.

(** A prefix of 3012 characters does not fit in the 3000. *)
Lemma RawLogVA_long_prefix_witness :
  RawLogging.RawLogVA 3000 false log_stack RawLogging.kError (long_file 3000) 1
    (Some (log_text 5))
  = Some [RawLogging.SafeWriteToStderr (log_text 5 ++ [RawLogging.LF])].
Proof.
  apply (RawLogVA_long_prefix 3000 false log_stack RawLogging.kError
           (long_file 3000) 1 (log_text 5)).
  - reflexivity.
  - reflexivity.
  - apply (bool_decide_eq_true_1 _). vm_compute. reflexivity.
  - vm_compute. reflexivity.
  - vm_compute. reflexivity.
Defined.

(** [SAPI_VLOG_LEVEL=2] at the first call, for level 1. *)
Lemma VLogIsOn_level_fixed_witness :
  ∃ level,
    Some 2 = Some level
    ∧ true = (1 <=? level)
    ∧ (atoi_of_2 "2" = Some level ∧ 0 <= level)
    ∧ ∀ env_var' verbose_level',
        RawLogging.VLogIsOn atoi_of_2 env_var' (Some 2) verbose_level'
        = Some (verbose_level' <=? level, Some 2).
Proof.
  apply (VLogIsOn_level_fixed_by_first_call atoi_of_2 (Some "2"%string) 1 true
           (Some 2)).
  reflexivity.
Defined.

(** A third object, move-constructed from the channel at address 2. *)
Lemma Comms_move_construct_witness :
  let w' := CommsModel.move_construct 3 2 comms_world in
  CommsModel.objs w' !! 3%nat = Some comms_b
  ∧ CommsModel.open_fds w' = CommsModel.open_fds comms_world
  ∧ (∃ b', CommsModel.objs w' !! 2%nat = Some b'
           ∧ CommsModel.IsTerminated b' = true
           ∧ CommsModel.IsConnected b' = false
           ∧ CommsModel.owned_fds b' = ∅
           ∧ CommsModel.can_transfer b' (CommsModel.open_fds w') = false)
  ∧ (∀ i, i ≠ 3%nat → i ≠ 2%nat →
          CommsModel.objs w' !! i = CommsModel.objs comms_world !! i).
Proof.
  apply (Comms_move_construct comms_world 3%nat 2%nat comms_b).
  - reflexivity.
  - reflexivity.
Defined.

(** [SendInt32] with [RecvInt32], against [SendUint32] with [RecvUint32]. *)
Lemma typed_helpers_pair_up_witness :
  CommsModel.tag_of CommsModel.RecvInt32 = CommsModel.tag_of CommsModel.SendInt32
  ∧ CommsModel.length_of CommsModel.RecvInt32
    = CommsModel.length_of CommsModel.SendInt32.
Proof.
  destruct (proj1 typed_helpers_pair_up
              CommsModel.SendInt32 CommsModel.RecvInt32
              CommsModel.SendUint32 CommsModel.RecvUint32)
    as (_ & _ & Htag & Hlen & _).
  - unfold CommsModel.typed_helpers. do 5 apply list_elem_of_further.
    apply list_elem_of_here.
  - unfold CommsModel.typed_helpers. do 4 apply list_elem_of_further.
    apply list_elem_of_here.
  - split; assumption.
Defined.

(** The descriptor sent for the request for 8.8.8.8:53. *)
Lemma Run_reaches_only_allowed_hosts_witness :
  ∃ a addr, a ∈ dns_script ∧ NetworkProxy.recv_bytes a = Some addr
    ∧ NetworkProxy.supported allow_all addr = true
    ∧ NetworkProxy.IsHostAllowed allow_all addr = true
    ∧ (5 = NetworkProxy.socket_ret a ∧ 0 <= 5
       ∧ 0 <= NetworkProxy.connect_ret a
       ∧ NetworkProxy.send_int32_ok a = true).
Proof.
  apply (Run_reaches_only_allowed_hosts allow_all dns_script idle_server
           (NetworkProxy.SendFD 5 true)).
  - vm_compute. do 4 apply list_elem_of_further. apply list_elem_of_here.
  - right. reflexivity.
Defined.

(** Five seconds from one second after the epoch. *)
Lemma SetWallTimeLimit_rounds_down_witness :
  let d := Monitor.deadline_millis_
             (Monitor.SetWallTimeLimit Monitor.UnotifyMonitor 1000000000
                (Monitor.Seconds 5) {| Monitor.deadline_millis_ := 0 |}).1 in
  d * 1000000 <= 1000000000 + Monitor.Seconds 5 < (d + 1) * 1000000
  ∧ (0 < Monitor.Seconds 5 → Monitor.ToUnixMillis 1000000000 <= d)
  ∧ (Monitor.Seconds 5 < 0 → d <= Monitor.ToUnixMillis 1000000000)
  ∧ (d = 0 ↔ 0 <= 1000000000 + Monitor.Seconds 5 < 1000000).
Proof.
  apply (SetWallTimeLimit_rounds_down Monitor.UnotifyMonitor 1000000000
           (Monitor.Seconds 5) {| Monitor.deadline_millis_ := 0 |}).
  - discriminate.
  - vm_compute. split; [discriminate|reflexivity].
Defined.

(** A message of exactly the 2984 characters the prefix leaves. *)
Lemma RawLogVA_exact_fit_witness :
  RawLogging.RawLogVA 3000 false log_stack RawLogging.kError log_file 1
    (Some (log_text 2984))
  = Some [RawLogging.SafeWriteToStderr
            (RawLogging.prefix_text log_file 1 ++ take 2983 (log_text 2984))].
Proof.
  apply (RawLogVA_exact_fit 3000 log_stack RawLogging.kError log_file 1
           (log_text 2984)).
  - reflexivity.
  - reflexivity.
  - apply (bool_decide_eq_true_1 _). vm_compute. reflexivity.
  - apply (bool_decide_eq_true_1 _). vm_compute. reflexivity.
  - discriminate.
  - vm_compute. reflexivity.
Defined.

End Instances.
